(** * co-wechat-api: the access-token core of [lib/api_common.js]

    A shallow embedding of the [AccessToken] class, of the [API] class
    ([request], [getAccessToken], [ensureAccessToken]) and of [API.mixin],
    followed by the properties the specification states about them.

    JavaScript values are embedded as the code uses them: option objects
    live in a heap and are shared by reference, [async] methods are
    computations over an explicit world that may return or throw, and the
    libraries the file imports ([httpx-bx], [url], [json-bigint], [./util])
    are the remote side of the world or parameters of the development. *)

From stdpp Require Import gmap strings list sorting.
From Stdlib Require Import ZArith DecimalString.
From Stdlib Require OrderedTypeEx.

Set Warnings "-register-all".

Open Scope Z_scope.

(** ** JavaScript values *)

(** Values that occur in option objects: primitives and references to
    heap-allocated objects. *)
Inductive jsval :=
| JUndefined
| JNull
| JBool (b : bool)
| JNum (n : Z)
| JStr (s : string)
| JRef (l : nat).

(** An object is its own enumerable properties, in enumeration order. *)
Abbreviation obj := (list (string * jsval)).

(** What [JSONbig.parse] produces. Numbers are integers; a number too
    large for a double comes back as a [BigNumber] object, kept as its
    digits. *)
Inductive json :=
| JSnull
| JSbool (b : bool)
| JSnum (n : Z)
| JSbig (digits : string)
| JSstr (s : string)
| JSarr (items : list json)
| JSobj (fields : list (string * json)).

(** The text of an [Error]: a string built by the code, [String(v)] of a
    decoded value, or a text chosen by the JavaScript engine. *)
Inductive message :=
| Literal (s : string)
| Coerced (v : json)
| EngineText.

Record exn := mkError {
  name : string;
  msg : message;
  code : option json
}.

(** [new Error(text)] *)
Definition Error (text : message) : exn :=
  {| name := "Error"; msg := text; code := None |}.

Definition TypeError : exn :=
  {| name := "TypeError"; msg := EngineText; code := None |}.

(** ** Credential *)

(** What the [expireTime] property can hold. Numbers are integers, as
    everywhere in this development. A string or an object comes with the
    number [ToNumber] makes of it, which the engine decides ([None] is
    NaN): ['500'] is [EString "500" (Some 500)], [{}] is [EObject None]. A
    symbol, or an object whose conversion throws, cannot be written. *)
Inductive expiry :=
| ENumber (n : Z)
| ENaN
| EUndefined
| ENull
| EBool (b : bool)
| EString (s : string) (number : option Z)
| EObject (number : option Z).

(** [class AccessToken]. [accessToken] is a string, or [None] for
    [undefined] and [null]; [expireTime] is whatever value was stored. *)
Record AccessToken := mkAccessToken {
  accessToken : option string;
  expireTime : expiry
}.

(** [constructor(accessToken, expireTime)] *)
Definition new_AccessToken (accessToken : option string) (expireTime : expiry) : AccessToken :=
  mkAccessToken accessToken expireTime.

(** ** The world *)

Definition Buffer := list Byte.byte.

Record Response := mkResponse {
  statusCode : Z;
  content_type : option string;     (* res.headers['content-type'] *)
  body : exn + Buffer               (* what httpx.read(res) yields *)
}.

(** One round trip as the remote side decides it: the clock reading when
    [httpx.request] settles, and a rejection or a response. *)
Record Exchange := mkExchange {
  arrival : Z;
  answer : exn + Response
}.

(** A call of [httpx.request]: the url, the options object, and the
    entries its [headers] object held at that moment. *)
Record Sent := mkSent {
  sent_url : string;
  sent_options : obj;
  sent_headers : obj
}.

Record World := mkWorld {
  store : option AccessToken;       (* this.store; None is undefined or null *)
  defaults : jsval;                 (* this.defaults *)
  heap : list obj;
  clock : Z;                        (* Date.now() *)
  remote : nat -> Exchange;         (* the answer to the n-th transport call *)
  sent : list Sent;                 (* transport calls so far, oldest first *)
  reads : nat                       (* bodies read so far *)
}.

Definition set_store (t : option AccessToken) (w : World) : World :=
  mkWorld t (defaults w) (heap w) (clock w) (remote w) (sent w) (reads w).


Definition set_heap (h : list obj) (w : World) : World :=
  mkWorld (store w) (defaults w) h (clock w) (remote w) (sent w) (reads w).

(** ** Computations *)

Inductive Result (A : Type) :=
| Return (a : A)
| Throw (e : exn)
| OutOfFuel.
Arguments Return {A} a.
Arguments Throw {A} e.
Arguments OutOfFuel {A}.

Definition M (A : Type) : Type := World -> Result A * World.

Definition ret {A} (a : A) : M A := fun w => (Return a, w).

Definition throw {A} (e : exn) : M A := fun w => (Throw e, w).

Definition bind {A B} (c : M A) (k : A -> M B) : M B :=
  fun w =>
    match c w with
    | (Return a, w') => k a w'
    | (Throw e, w') => (Throw e, w')
    | (OutOfFuel, w') => (OutOfFuel, w')
    end.

Notation "'let*' x ':=' c 'in' k" := (bind c (fun x => k))
  (at level 10, x name, c at level 100, k at level 200).
Notation "c '>>' k" := (bind c (fun _ => k))
  (at level 90, right associativity).

(** [Date.now()] *)
Definition Date_now : M Z := fun w => (Return (clock w), w).

(** ** [AccessToken.isValid] *)

(** [!!this.accessToken] *)
Definition truthy_string (s : option string) : bool :=
  match s with
  | Some s => negb (String.eqb s "")
  | None => false
  end.

(** The number [<] compares when one operand is a number and the other
    is [v]; [None] is NaN. *)
Definition ToNumber (v : expiry) : option Z :=
  match v with
  | ENumber n => Some n
  | ENaN | EUndefined => None
  | ENull => Some 0
  | EBool b => Some (if b then 1 else 0)
  | EString _ number | EObject number => number
  end.

(** [now < expireTime]: the operands are compared as numbers, and a
    comparison with NaN is false *)
Definition before (now : Z) (expireTime : expiry) : bool :=
  match ToNumber expireTime with
  | Some e => now <? e
  | None => false
  end.

Definition isValid (this : AccessToken) : M bool :=
  if truthy_string (accessToken this) then
    let* now := Date_now in
    ret (before now (expireTime this))
  else ret false.

(** ** [class API] *)

Record API := mkAPI {
  appid : string;
  appsecret : string;
  getToken : M (option AccessToken);
  saveToken : option AccessToken -> M unit;
  prefix : string;
  tokenFromCustom : bool
}.

(** The hooks the constructor installs when the embedder gives none. The
    [console.warn] of the default [saveToken] is not modelled. *)
Definition default_getToken : M (option AccessToken) :=
  fun w => (Return (store w), w).

Definition default_saveToken (token : option AccessToken) : M unit :=
  fun w => (Return tt, set_store token w).

(** [constructor(appid, appsecret, getToken, saveToken, tokenFromCustom)].
    The other url prefixes and [registerTicketHandle] belong to the
    endpoint modules. *)
Definition new_API (appid appsecret : string)
    (getToken : option (M (option AccessToken)))
    (saveToken : option (option AccessToken -> M unit))
    (tokenFromCustom : bool) : API :=
  {| appid := appid;
     appsecret := appsecret;
     getToken := default default_getToken getToken;
     saveToken := default default_saveToken saveToken;
     prefix := "https://api.weixin.qq.com/cgi-bin/";
     tokenFromCustom := tokenFromCustom |}.


(** ** [ensureAccessToken] *)

Definition WeChatAPIError (text : message) (c : option json) : exn :=
  {| name := "WeChatAPIError"; msg := text; code := c |}.

(** What follows the failed validity test. *)
Definition no_valid_token {A} (this : API) : M A :=
  if tokenFromCustom this then
    throw (WeChatAPIError (Literal "accessToken Error") (Some (JSnum 40001)))
  else
    throw (Error (Literal "can't set access token")).

Definition ensureAccessToken (this : API) : M AccessToken :=
  let* token := getToken this in
  match token with
  | Some token =>
      let accessToken := new_AccessToken (accessToken token) (expireTime token) in
      let* valid := isValid accessToken in
      if valid then ret accessToken else no_valid_token this
  | None => no_valid_token this
  end.

(** ** [API.mixin] *)

Section Mixin.

(** Whatever the method sets hold as values. *)
Variable Method : Type.

(** What calling such a value as [API.prototype.hasOwnProperty(key)]
    does: it throws, or it answers truthy or falsy; and the prototype it
    leaves, which it may have written to. *)
Variable call :
  Method -> gmap string Method -> string -> (exn + bool) * gmap string Method.

(** [Object.prototype.hasOwnProperty], which the prototype inherits. *)
Definition owns (proto : gmap string Method) (key : string) : bool :=
  bool_decide (is_Some (proto !! key)).

(** [API.prototype.hasOwnProperty(key)]. The method is looked up on the
    prototype itself first: one that was mixed in under the name
    [hasOwnProperty] is called in place of the inherited one. *)
Definition hasOwnProperty (proto : gmap string Method) (key : string)
  : (exn + bool) * gmap string Method :=
  match proto !! "hasOwnProperty" with
  | Some m => call m proto key
  | None => (inr (owns proto key), proto)
  end.

Definition override_error (key : string) : exn :=
  Error (Literal ("Don't allow override existed prototype method. method: " +:+ key)).

(** [mixin], on the pairs [(key, obj[key])] in the order [for (key in obj)]
    visits them, threading [API.prototype]. [None] is a normal return. *)
Fixpoint mixin (obj : list (string * Method)) (proto : gmap string Method)
  : option exn * gmap string Method :=
  match obj with
  | [] => (None, proto)
  | (key, m) :: rest =>
      match hasOwnProperty proto key with
      | (inl e, proto) => (Some e, proto)
      | (inr true, proto) => (Some (override_error key), proto)
      | (inr false, proto) => mixin rest (<[key := m]> proto)
      end
  end.

(** Plain installation of a list of methods, in order. *)
Definition install (obj : list (string * Method)) (proto : gmap string Method)
  : gmap string Method :=
  foldl (fun p km => <[km.1 := km.2]> p) proto obj.

End Mixin.
Arguments owns {Method}.
Arguments hasOwnProperty {Method}.
Arguments mixin {Method}.
Arguments install {Method}.

(** ** Objects and the heap *)

(** [!!v] *)
Definition truthy (v : jsval) : bool :=
  match v with
  | JUndefined | JNull => false
  | JBool b => b
  | JNum n => negb (n =? 0)
  | JStr s => negb (String.eqb s "")
  | JRef _ => true
  end.

Fixpoint obj_get (o : obj) (key : string) : jsval :=
  match o with
  | [] => JUndefined
  | (k, v) :: o' => if String.eqb k key then v else obj_get o' key
  end.

(** [o[key] = v]: in place when the key exists, appended otherwise. *)
Fixpoint obj_set (o : obj) (key : string) (v : jsval) : obj :=
  match o with
  | [] => [(key, v)]
  | (k, v0) :: o' =>
      if String.eqb k key then (k, v) :: o' else (k, v0) :: obj_set o' key v
  end.

Definition decimal (n : Z) : string := NilZero.string_of_int (Z.to_int n).

(** The index properties of a string, one per character. *)
Definition string_props (s : string) : obj :=
  imap (fun i c => (decimal (Z.of_nat i), JStr (String c EmptyString)))
       (String.list_ascii_of_string s).

(** The own enumerable properties [Object.keys] and [Object.assign] see. *)
Definition own_props (h : list obj) (v : jsval) : obj :=
  match v with
  | JRef l => default [] (h !! l)
  | JStr s => string_props s
  | _ => []
  end.

(** [v[key]] for a value that is not [undefined] or [null]; inherited
    properties other than a string's [length] are not modelled. *)
Definition prop_of (h : list obj) (v : jsval) (key : string) : jsval :=
  match v with
  | JStr s =>
      if String.eqb key "length" then JNum (Z.of_nat (String.length s))
      else obj_get (string_props s) key
  | _ => obj_get (own_props h v) key
  end.

Definition get_prop (v : jsval) (key : string) : M jsval :=
  fun w => (Return (prop_of (heap w) v key), w).

(** The object literal [{}] *)
Definition new_object : M jsval :=
  fun w => (Return (JRef (length (heap w))), set_heap (heap w ++ [[]]) w).

(** [Object.assign] into an object held by value. *)
Definition assign (target source : obj) : obj :=
  foldl (fun o kv => obj_set o kv.1 kv.2) target source.

(** The own properties of a [String] wrapper, all read-only. *)
Definition string_owns (s : string) (key : string) : bool :=
  String.eqb key "length" || existsb (fun kv => String.eqb kv.1 key) (string_props s).

(** [Object.assign(target, source)] on values. A primitive target is
    wrapped in a temporary object, so the writes are lost; writing a
    read-only property of a [String] wrapper throws. *)
Definition Object_assign (target source : jsval) : M unit :=
  fun w =>
    let props := own_props (heap w) source in
    match target with
    | JRef l => (Return tt, set_heap (alter (fun o => assign o props) l (heap w)) w)
    | JStr s =>
        if existsb (fun kv => string_owns s kv.1) props then (Throw TypeError, w)
        else (Return tt, w)
    | JUndefined | JNull => (Throw TypeError, w)
    | JBool _ | JNum _ => (Return tt, w)
    end.

(** ** Transport *)

(** The world once a transport call has settled: the clock has moved to
    the arrival time and the call is on record. *)
Definition after_call (url : string) (options : obj) (w : World) : World :=
  let x := remote w (length (sent w)) in
  let call := mkSent url options (own_props (heap w) (obj_get options "headers")) in
  mkWorld (store w) (defaults w) (heap w) (arrival x) (remote w) (sent w ++ [call]) (reads w).

(** [httpx.request(url, options)] *)
Definition httpx_request (url : string) (options : obj) : M Response :=
  fun w =>
    match answer (remote w (length (sent w))) with
    | inl e => (Throw e, after_call url options w)
    | inr res => (Return res, after_call url options w)
    end.

Definition after_read (w : World) : World :=
  mkWorld (store w) (defaults w) (heap w) (clock w) (remote w) (sent w) (S (reads w)).

(** [httpx.read(res)] *)
Definition httpx_read (res : Response) : M Buffer :=
  fun w =>
    match body res with
    | inl e => (Throw e, after_read w)
    | inr buffer => (Return buffer, after_read w)
    end.

(** ** The option merge at the head of [request] *)

(** The [for] loop over [Object.keys(opts)]. *)
Fixpoint merge_keys (opts : jsval) (keys : list string) (options : obj) : M obj :=
  match keys with
  | [] => ret options
  | key :: keys =>
      if negb (String.eqb key "headers") then
        let* v := get_prop opts key in
        merge_keys opts keys (obj_set options key v)
      else
        let* headers := get_prop opts "headers" in
        if truthy headers then
          let* target :=
            (if truthy (obj_get options "headers") then ret (obj_get options "headers")
             else new_object) in
          let options := obj_set options "headers" target in
          Object_assign target headers >>
          merge_keys opts keys options
        else merge_keys opts keys options
  end.

(** [Object.keys(v)] and the properties [Object.assign] copies out of [v] *)
Definition own_properties (v : jsval) : M obj :=
  fun w => (Return (own_props (heap w) v), w).

Definition Object_keys (v : jsval) : M (list string) :=
  fun w => (Return (own_props (heap w) v).*1, w).

Definition this_defaults : M jsval :=
  fun w => (Return (defaults w), w).

(** Lines 107-121 of [request]; returns [opts] too, which the code may
    have replaced by a fresh [{}]. *)
Definition merge_options (opts : jsval) : M (jsval * obj) :=
  let* defaults := this_defaults in
  let* props := own_properties defaults in
  let options := assign [] props in
  let* opts := (if truthy opts then ret opts else new_object) in
  let* keys := Object_keys opts in
  let* options := merge_keys opts keys options in
  ret (opts, options).

(** ** Decoded bodies *)

(** [!!d] for a decoded value; a [BigNumber] is an object. *)
Definition json_truthy (d : json) : bool :=
  match d with
  | JSnull => false
  | JSbool b => b
  | JSnum n => negb (n =? 0)
  | JSstr s => negb (String.eqb s "")
  | JSbig _ | JSarr _ | JSobj _ => true
  end.

Fixpoint field_get (fields : list (string * json)) (key : string) : option json :=
  match fields with
  | [] => None
  | (k, v) :: fields => if String.eqb k key then Some v else field_get fields key
  end.

(** [d.key]; [None] is [undefined]. *)
Definition json_get (d : json) (key : string) : option json :=
  match d with
  | JSobj fields => field_get fields key
  | _ => None
  end.

(** The value of [data && data.errcode] when it is truthy. *)
Definition errcode_of (data : json) : option json :=
  if json_truthy data then
    match json_get data "errcode" with
    | Some c => if json_truthy c then Some c else None
    | None => None
    end
  else None.

(** [c === n] for a number literal [n] *)
Definition is_number (c : json) (n : Z) : bool :=
  match c with
  | JSnum m => m =? n
  | _ => false
  end.

(** The message [new Error(v)] gets. *)
Definition message_of (v : option json) : message :=
  match v with
  | None => Literal ""
  | Some (JSstr s) => Literal s
  | Some v => Coerced v
  end.

(** [s.includes(sub)] *)
Fixpoint includes (s sub : string) : bool :=
  String.prefix sub s ||
  match s with
  | EmptyString => false
  | String _ s' => includes s' sub
  end.

(** What [request] resolves to: the decoded body, the text, or the bytes. *)
Inductive reply :=
| RData (data : json)
| RText (origin : string)
| RBuffer (buffer : Buffer).

(** ** Urls *)

(** A value of the [query] object of [url.parse(url, true)]. *)
Inductive qval :=
| QUndefined
| QStr (s : string)
| QArr (l : list string).

(** The object [url.parse] returns: [search], [query], and the fields
    [request] never touches (protocol, host, pathname, hash, ...). *)
Record Url := mkUrl {
  parts : list (string * string);
  search : option string;
  query : list (string * qval)
}.

Definition qtruthy (v : option qval) : bool :=
  match v with
  | Some (QStr s) => negb (String.eqb s "")
  | Some (QArr _) => true
  | Some QUndefined | None => false
  end.

Fixpoint query_get (q : list (string * qval)) (key : string) : option qval :=
  match q with
  | [] => None
  | (k, v) :: q => if String.eqb k key then Some v else query_get q key
  end.

Fixpoint query_set (q : list (string * qval)) (key : string) (v : qval) : list (string * qval) :=
  match q with
  | [] => [(key, v)]
  | (k, v0) :: q =>
      if String.eqb k key then (k, v) :: q else (k, v0) :: query_set q key v
  end.

Definition qval_of (s : option string) : qval :=
  match s with
  | Some s => QStr s
  | None => QUndefined
  end.

(** Lines 158-161: the token is written into the parsed url and the
    cached [search] is dropped, when the query carries a token. *)
Definition rewrite_token (urlobj : Url) (token : AccessToken) : Url :=
  if qtruthy (query_get (query urlobj) "access_token") then
    {| parts := parts urlobj;
       search := None;
       query := query_set (query urlobj) "access_token" (qval_of (accessToken token)) |}
  else urlobj.

(** ** The libraries [request] calls *)

Record Externals := mkExternals {
  Buffer_toString : Buffer -> string;            (* buffer.toString() *)
  replaceJSONCtlChars : string -> string;        (* ./util *)
  JSONbig_parse : string -> option json;         (* None: the parser throws *)
  liburl_parse : string -> Url;                  (* liburl.parse(url, true) *)
  liburl_format : Url -> string
}.

(** ** [request] *)

Definition parse_error (origin : string) : exn :=
  WeChatAPIError (Literal ("JSON.parse error. buffer is " +:+ origin)) None.

Definition status_error (url : string) (status : Z) : exn :=
  WeChatAPIError (Literal ("url: " +:+ url +:+ ", status code: " +:+ decimal status)) None.

(** [err] of line 148, with its name and code set. *)
Definition api_error (data : json) (c : json) : exn :=
  {| name := "WeChatAPIError"; msg := message_of (json_get data "errmsg"); code := Some c |}.

Definition rejection_code (c : json) : bool :=
  is_number c 40001 || is_number c 42001.

Section Request.

Variable ext : Externals.

(** What [this.getAccessToken()] dispatches to. *)
Variable this_getAccessToken : API -> M AccessToken.

(** [request] with [retry] already defaulted. The recursion of the
    source is on [retry]; [fuel] bounds it structurally, and
    [Z.to_nat retry] is always enough. *)
Fixpoint request_from (fuel : nat) (this : API) (url : string) (opts : jsval)
    (retry : Z) : M reply :=
  let* merged := merge_options opts in
  let opts := merged.1 in
  let options := merged.2 in
  let* res := httpx_request url options in
  if (statusCode res <? 200) || (204 <? statusCode res) then
    throw (status_error url (statusCode res))
  else
    let* buffer := httpx_read res in
    let contentType := default "" (content_type res) in
    if includes contentType "application/json" || includes contentType "text/plain" then
      let origin := Buffer_toString ext buffer in
      match JSONbig_parse ext (replaceJSONCtlChars ext origin) with
      | None =>
          if includes contentType "text/plain" then ret (RText origin)
          else throw (parse_error origin)
      | Some data =>
          match errcode_of data with
          | Some c =>
              let err := api_error data c in
              if rejection_code c && (0 <? retry) && negb (tokenFromCustom this) then
                saveToken this None >>
                let* token := this_getAccessToken this in
                let urlobj := liburl_parse ext url in
                let urlobj := rewrite_token urlobj token in
                match fuel with
                | S fuel => request_from fuel this (liburl_format ext urlobj) opts (retry - 1)
                | O => fun w => (OutOfFuel, w)
                end
              else throw err
          | None => ret (RData data)
          end
      end
    else ret (RBuffer buffer).

Definition request_with (this : API) (url : string) (opts : jsval)
    (retry : option Z) : M reply :=
  let retry := default 3 retry in
  request_from (Z.to_nat retry) this url opts retry.

End Request.

(** ** [getAccessToken] *)

Definition guard_error : exn := Error (Literal "super can't set access token").

(** [data.access_token] as the token of a credential. *)
Definition access_token_of (data : reply) : option string :=
  match data with
  | RData d => match json_get d "access_token" with Some (JSstr s) => Some s | _ => None end
  | _ => None
  end.

(** [Date.now() + (data.expires_in - 10) * 1000] for an [expires_in] that
    is a number; [None] is NaN. *)
Definition expiry_of (now : Z) (data : reply) : option Z :=
  match data with
  | RData d =>
      match json_get d "expires_in" with
      | Some (JSnum expires_in) => Some (now + (expires_in - 10) * 1000)
      | _ => None
      end
  | _ => None
  end.

(** Lines 191-198, the statements behind the guard. *)
Definition acquire
    (this_request : API -> string -> jsval -> option Z -> M reply)
    (this : API) : M AccessToken :=
  let url := prefix this +:+ "token?grant_type=client_credential&appid=" +:+ appid this
             +:+ "&secret=" +:+ appsecret this in
  let* data := this_request this url JUndefined None in
  let* now := Date_now in
  let expireTime :=
    match expiry_of now data with
    | Some n => ENumber n
    | None => ENaN
    end in
  let token := new_AccessToken (access_token_of data) expireTime in
  saveToken this (Some token) >>
  ret token.

(** The method as written, over what [this.request] denotes: the guard of
    line 189 first. *)
Definition getAccessToken_with
    (this_request : API -> string -> jsval -> option Z -> M reply)
    (this : API) : M AccessToken :=
  throw (A := unit) guard_error >>
  acquire this_request this.

Section API_methods.

Variable ext : Externals.

(** [request] and [getAccessToken] call each other. The guard makes
    [getAccessToken_with] independent of its argument, so the knot is
    tied at the guard; [getAccessToken_unfold] below shows that the
    equation of the source holds. *)
Definition getAccessToken : API -> M AccessToken :=
  getAccessToken_with (request_with ext (fun _ => throw guard_error)).

Definition request : API -> string -> jsval -> option Z -> M reply :=
  request_with ext getAccessToken.

(** [getAccessTokenFromWeixin] *)
Definition getAccessTokenFromWeixin (this : API) : M reply :=
  let url := prefix this +:+ "token?grant_type=client_credential&appid=" +:+ appid this
             +:+ "&secret=" +:+ appsecret this in
  let* data := request this url JUndefined None in
  ret data.

End API_methods.

(** ** [getPhoneNumberForMiniProgram] *)

(** [this.wxaPrefix], as the constructor sets it. *)
Definition wxaPrefix (this : API) : string := "https://api.weixin.qq.com/wxa/".

(** The text a string concatenation makes of [accessToken]. *)
Definition token_text (accessToken : option string) : string :=
  default "undefined" accessToken.

Section MiniProgram.

Variable ext : Externals.

(** [postJSON] of [./util]: builds the options object of a JSON POST. *)
Variable postJSON : json -> M jsval.

Definition getPhoneNumberForMiniProgram (this : API) (code : json) : M reply :=
  let* token := ensureAccessToken this in
  let accessToken := accessToken token in
  let url := wxaPrefix this +:+ "business/getuserphonenumber?access_token="
             +:+ token_text accessToken in
  let data := JSobj [("code", code)] in
  let* opts := postJSON data in
  request ext this url opts None.

End MiniProgram.

(** ** [checkWeixinServerGetSignature] *)

(** The order of the default [sort()]: by character code, a proper prefix
    first. A character of the model stands for a code unit. *)
Definition string_le (a b : string) : Prop := String.leb a b = true.

#[global] Instance string_le_dec : RelDecision string_le :=
  fun a b => decide (String.leb a b = true).

(** [arr.sort()] *)
Definition js_sort (arr : list string) : list string := merge_sort string_le arr.

(** [arr.join('')] *)
Definition join_empty (arr : list string) : string := foldr String.append "" arr.

Section Signature.

(** [crypto.createHash('sha1')], [update] and [digest('hex')] in one. *)
Variable sha1_hex : string -> string.

Definition checkWeixinServerGetSignature (token timestamp nonce signature : string) : bool :=
  let signatureArr := js_sort [token; timestamp; nonce] in
  String.eqb (sha1_hex (join_empty signatureArr)) signature.

End Signature.

(** ** Concrete worlds for the examples *)

(** The client right after construction: nothing stored, [this.defaults]
    a fresh [{}]. *)
Definition fresh_world (now : Z) (remote : nat -> Exchange) : World :=
  mkWorld None (JRef 0) [[]] now remote [] 0.

(** A remote side that answers the calls with [answers], in order, one
    millisecond after [now], and refuses every later call. *)
Definition serve (now : Z) (answers : list Response) : nat -> Exchange :=
  fun n =>
    match answers !! n with
    | Some res => mkExchange (now + 1) (inr res)
    | None => mkExchange (now + 1) (inl (Error EngineText))
    end.

Definition json_response (status : Z) (text : string) : Response :=
  mkResponse status (Some "application/json; charset=utf-8")
             (inr (String.list_byte_of_string text)).

(** JSON texts, with their quotation marks. *)
Definition quotation_mark : Ascii.ascii := Ascii.ascii_of_nat 34.

Definition quoted (s : string) : string :=
  String quotation_mark (s +:+ String quotation_mark EmptyString).

Definition rejected_body : string :=
  "{" +:+ quoted "errcode" +:+ ":40001," +:+ quoted "errmsg" +:+ ":"
      +:+ quoted "invalid credential" +:+ "}".
Definition busy_body : string :=
  "{" +:+ quoted "errcode" +:+ ":41001," +:+ quoted "errmsg" +:+ ":"
      +:+ quoted "appsecret missing" +:+ "}".
Definition granted_body : string :=
  "{" +:+ quoted "access_token" +:+ ":" +:+ quoted "T1" +:+ ","
      +:+ quoted "expires_in" +:+ ":7200}".
Definition done_body : string :=
  "{" +:+ quoted "errcode" +:+ ":0," +:+ quoted "errmsg" +:+ ":" +:+ quoted "ok" +:+ "}".

(** Stand-ins for the libraries. The decoder knows the four texts above
    and takes every other text for malformed. *)
Definition toy_parse (text : string) : option json :=
  if String.eqb text rejected_body then
    Some (JSobj [("errcode", JSnum 40001); ("errmsg", JSstr "invalid credential")])
  else if String.eqb text busy_body then
    Some (JSobj [("errcode", JSnum 41001); ("errmsg", JSstr "appsecret missing")])
  else if String.eqb text granted_body then
    Some (JSobj [("access_token", JSstr "T1"); ("expires_in", JSnum 7200)])
  else if String.eqb text done_body then
    Some (JSobj [("errcode", JSnum 0); ("errmsg", JSstr "ok")])
  else None.

Definition menu_url : string := "https://api.weixin.qq.com/cgi-bin/menu/get".
Definition token_url : string := menu_url +:+ "?access_token=T0&lang=zh".
Definition debug_url : string := menu_url +:+ "?access_token=T0&debug".

(** The url parser knows [token_url] and [debug_url], whose bare [debug]
    is parsed as an empty value; the formatter writes the parts, then
    [search] or else the query, entry by entry as [key=value]. *)
Definition toy_url (url : string) : Url :=
  if String.eqb url token_url then
    mkUrl [("protocol", "https:"); ("host", "api.weixin.qq.com"); ("pathname", "/cgi-bin/menu/get")]
          (Some "?access_token=T0&lang=zh")
          [("access_token", QStr "T0"); ("lang", QStr "zh")]
  else if String.eqb url debug_url then
    mkUrl [("protocol", "https:"); ("host", "api.weixin.qq.com"); ("pathname", "/cgi-bin/menu/get")]
          (Some "?access_token=T0&debug")
          [("access_token", QStr "T0"); ("debug", QStr "")]
  else mkUrl [("href", url)] None [].

Definition toy_entry (kv : string * qval) : string :=
  match kv.2 with
  | QStr v => kv.1 +:+ "=" +:+ v
  | _ => kv.1 +:+ "="
  end.

Fixpoint toy_join (l : list string) : string :=
  match l with
  | [] => ""
  | [x] => x
  | x :: l => x +:+ "&" +:+ toy_join l
  end.

Definition toy_format (u : Url) : string :=
  match parts u with
  | [(_, protocol); (_, host); (_, pathname)] =>
      protocol +:+ "//" +:+ host +:+ pathname +:+
      match search u with
      | Some s => s
      | None => "?" +:+ toy_join (toy_entry <$> query u)
      end
  | _ => ""
  end.

Definition toy_ext : Externals :=
  mkExternals String.string_of_list_byte (fun s => s) toy_parse toy_url toy_format.

(** A client whose stored credential expired half a second ago. *)
Definition stale_world : World :=
  set_store (Some (mkAccessToken (Some "T0") (ENumber 500))) (fresh_world 1000 (serve 1000 [])).

Definition self_managed : API := new_API "wx1" "s3cret" None None false.
Definition custom_tokens : API := new_API "wx1" "s3cret" None None true.

(** A prototype that owns [request], and a method set that collides with
    it on its second name. Methods are numbered. *)
Definition base_prototype : gmap string nat := {[ "request" := 0%nat ]}.

(** How the numbered methods of the examples answer when called as
    [hasOwnProperty]: method 7 is [function () { return false }], the
    others throw. *)
Definition toy_call (m : nat) (proto : gmap string nat) (key : string)
  : (exn + bool) * gmap string nat :=
  if Nat.eqb m 7 then (inr false, proto) else (inl TypeError, proto).


(** ** Vocabulary of the statements *)

(** The test of [isValid] at a given clock reading. *)
Definition valid_at (now : Z) (t : AccessToken) : bool :=
  truthy_string (accessToken t) && before now (expireTime t).

(** The stored credential is missing or invalid at time [now]. *)
Definition unusable (now : Z) (token : option AccessToken) : Prop :=
  match token with
  | Some t => valid_at now t = false
  | None => True
  end.

(** [w'] differs from [w] in the heap at most. *)
Definition heap_only (w w' : World) : Prop :=
  store w' = store w /\ defaults w' = defaults w /\ clock w' = clock w /\
  remote w' = remote w /\ sent w' = sent w /\ reads w' = reads w.

Definition touches_heap_only {A} (c : M A) : Prop :=
  forall w, heap_only w (c w).2.

(** A computation that makes no transport call. *)
Definition silent {A} (c : M A) : Prop :=
  forall w, sent (c w).2 = sent w.


(** The remote side grants a token to whoever asks. *)
Definition granting_world : World :=
  fresh_world 1000 (serve 1000 [json_response 200 granted_body]).

(** A client whose defaults carry a [headers] object (at 1), and a call
    whose options (at 2) carry headers of their own (at 3). *)
Definition shared_world : World :=
  mkWorld None (JRef 0)
    [ [("timeout", JNum 5000); ("headers", JRef 1)];
      [("User-Agent", JStr "co-wechat-api")];
      [("dataType", JStr "json"); ("headers", JRef 3)];
      [("X-Trace", JStr "abc")] ]
    1000 (serve 1000 [json_response 200 done_body; json_response 200 done_body]) [] 0.

(** The computation returns or throws: the fuel of the model was enough. *)
Definition settles {A} (c : M A) : Prop :=
  forall w, (c w).1 <> OutOfFuel.

(** At most [n] transport calls. *)
Definition calls_le {A} (n : nat) (c : M A) : Prop :=
  forall w, (length (sent (c w).2) <= length (sent w) + n)%nat.

(** The first attempt of [request url opts] from [w]: the merge yields
    [options] (and [opts'] for [opts]), and the transport call settles
    with the response [res], leaving [w2]. *)
Definition answered (url : string) (opts : jsval) (w : World)
    (opts' : jsval) (options : obj) (res : Response) (w2 : World) : Prop :=
  exists w1,
    merge_options opts w = (Return (opts', options), w1) /\
    httpx_request url options w1 = (Return res, w2).

(** The response is in the success range and its body reads as [buffer]. *)
Definition readable (res : Response) (buffer : Buffer) : Prop :=
  200 <= statusCode res <= 204 /\ body res = inr buffer.

(** [res.headers['content-type'] || ''] *)
Definition contentType_of (res : Response) : string := default "" (content_type res).

(** The body is taken for JSON and decodes to [data]. *)
Definition decodes (ext : Externals) (res : Response) (buffer : Buffer) (data : json) : Prop :=
  includes (contentType_of res) "application/json"
    || includes (contentType_of res) "text/plain" = true /\
  JSONbig_parse ext (replaceJSONCtlChars ext (Buffer_toString ext buffer)) = Some data.

(** The remote side answers with status 500. *)
Definition failing_world : World :=
  fresh_world 1000 (serve 1000 [json_response 500 busy_body]).

(** A client holding the valid credential [T0]; the remote side rejects
    the first call with 40001 and would accept a second one. *)
Definition rejecting_world : World :=
  set_store (Some (mkAccessToken (Some "T0") (ENumber 7190000)))
    (fresh_world 1000 (serve 1000 [json_response 200 rejected_body; json_response 200 done_body])).

(** An override of [getAccessToken], as a subclass may install it: it
    saves and returns the credential [T2]. *)
Definition renewing (this : API) : M AccessToken :=
  let token := new_AccessToken (Some "T2") (ENumber 7200000) in
  saveToken this (Some token) >>
  ret token.

(** Another override: it saves and returns the credential [T0] again,
    as a store shared with other processes may hand it back. *)
Definition reissuing (this : API) : M AccessToken :=
  let token := new_AccessToken (Some "T0") (ENumber 7190000) in
  saveToken this (Some token) >>
  ret token.

(** A 200 response of type [text/plain] whose body is not JSON. *)
Definition text_world : World :=
  fresh_world 1000
    (serve 1000 [mkResponse 200 (Some "text/plain") (inr (String.list_byte_of_string "plain words"))]).

(** A computation that leaves [this.store] alone, assigns nothing to the
    field [this.defaults] (the objects on the heap, the one the field
    refers to among them, are not covered), makes at most [n] transport
    calls, and returns or throws. *)
Definition bystander {A} (n : nat) (c : M A) : Prop :=
  forall w,
    store (c w).2 = store w /\ defaults (c w).2 = defaults w /\
    (length (sent (c w).2) <= length (sent w) + n)%nat /\
    (c w).1 <> OutOfFuel.

(** A [postJSON] for the examples: the options of a JSON POST, with the
    body left out. *)
Definition toy_postJSON (data : json) : M jsval :=
  fun w =>
    (Return (JRef (S (length (heap w)))),
     set_heap (heap w ++ [[("Content-Type", JStr "application/json")];
                          [("method", JStr "POST"); ("headers", JRef (length (heap w)))]]) w).

(** A digest for the examples: the text itself. *)
Definition toy_digest (s : string) : string := s.

(** A client holding the credential [T0], valid at the clock of the
    world; the remote side answers one call with [done_body]. *)
Definition ready_world : World :=
  set_store (Some (mkAccessToken (Some "T0") (ENumber 7190000)))
    (fresh_world 1000 (serve 1000 [json_response 200 done_body])).

(** The remote side refuses the first call; the body of the second
    cannot be read. *)
Definition refusing_world : World :=
  fresh_world 1000 (fun _ => mkExchange 1001 (inl (Error (Literal "ECONNREFUSED")))).

Definition broken_body_world : World :=
  fresh_world 1000
    (serve 1000 [mkResponse 200 (Some "application/json") (inl (Error (Literal "aborted")))]).


(** * Properties *)

(** ** Sequencing *)


Lemma bind_ext {A B} (c : M A) (k k' : A -> M B) (w : World) :
  (forall a w', k a w' = k' a w') -> bind c k w = bind c k' w.
Proof. intros H. unfold bind. destruct (c w) as [[a|e|] w']; [apply H|reflexivity..]. Qed.

(** ** Credential validity *)

Lemma isValid_valid_at (this : AccessToken) (w : World) :
  isValid this w = (Return (valid_at (clock w) this), w).
Proof.
  unfold isValid, valid_at.
  destruct (truthy_string (accessToken this)); reflexivity.
Qed.

Lemma truthy_string_spec (s : option string) :
  truthy_string s = true <-> exists t, s = Some t /\ t <> "".
Proof.
  destruct s as [t|]; simpl.
  - rewrite negb_true_iff. split.
    + intros H. exists t. split; [reflexivity|].
      intros ->. discriminate.
    + intros (t' & [= <-] & Hne).
      destruct (String.eqb_spec t ""); congruence.
  - split; [discriminate|]. intros (t & H & _). discriminate.
Qed.

Lemma before_spec (now : Z) (e : expiry) :
  before now e = true <-> exists t, ToNumber e = Some t /\ now < t.
Proof.
  unfold before. destruct (ToNumber e) as [t|]; simpl.
  - rewrite Z.ltb_lt. split.
    + intros H. exists t. auto.
    + intros (t' & [= <-] & H). exact H.
  - split; [discriminate|]. intros (t & H & _). discriminate.
Qed.

(** C8. [isValid()] always returns, leaves the world alone, and answers
    true exactly when the token is a non-empty string and the current time
    is strictly before [expireTime], taken as the number the comparison
    makes of it; hence an [expireTime] in the past, or equal to the current
    instant, is never valid, and for an [expireTime] that is a number the
    test is on that number. *)
Theorem isValid_iff (this : AccessToken) (w : World) :
  exists b : bool,
    isValid this w = (Return b, w) /\
    (b = true <->
       exists token expiry,
         accessToken this = Some token /\ token <> "" /\
         ToNumber (expireTime this) = Some expiry /\ clock w < expiry) /\
    (forall expiry,
       ToNumber (expireTime this) = Some expiry -> expiry <= clock w -> b = false) /\
    (forall n, expireTime this = ENumber n ->
       (b = true <-> (exists token, accessToken this = Some token /\ token <> "") /\
                     clock w < n)).
Proof.
  exists (valid_at (clock w) this).
  split; [apply isValid_valid_at|].
  assert (Hiff : valid_at (clock w) this = true <->
                 exists token expiry,
                   accessToken this = Some token /\ token <> "" /\
                   ToNumber (expireTime this) = Some expiry /\ clock w < expiry).
  { unfold valid_at. rewrite andb_true_iff, truthy_string_spec, before_spec.
    split.
    - intros [(t & Ht & Hne) (e & He & Hlt)]. exists t, e. auto.
    - intros (t & e & Ht & Hne & He & Hlt). split; eauto. }
  split; [exact Hiff|]. split.
  - intros expiry He Hle.
    destruct (valid_at (clock w) this) eqn:Hv; [|reflexivity].
    destruct Hiff as [Hiff _].
    destruct (Hiff eq_refl) as (t & e & _ & _ & He' & Hlt).
    rewrite He in He'. injection He' as <-. lia.
  - intros n Hn. rewrite Hiff, Hn. cbn [ToNumber]. split.
    + intros (t & e & Ht & Hne & [= <-] & Hlt). split; [eauto|exact Hlt].
    + intros [(t & Ht & Hne) Hlt]. exists t, n. auto.
Qed.

(** A numeric string is compared as its number: [new AccessToken('T0',
    '500')] is valid at 400 and no longer at 500. *)
Example isValid_numeric_string :
  isValid (mkAccessToken (Some "T0") (EString "500" (Some 500))) (fresh_world 400 (serve 400 []))
    = (Return true, fresh_world 400 (serve 400 [])) /\
  isValid (mkAccessToken (Some "T0") (EString "500" (Some 500))) (fresh_world 500 (serve 400 []))
    = (Return false, fresh_world 500 (serve 400 [])).
Proof. split; reflexivity. Qed.

(** ** [ensureAccessToken] *)

Lemma ensureAccessToken_unusable (this : API) (w w1 : World) (token : option AccessToken) :
  getToken this w = (Return token, w1) ->
  unusable (clock w1) token ->
  ensureAccessToken this w = no_valid_token this w1.
Proof.
  intros Hget Hbad. unfold ensureAccessToken, bind. rewrite Hget.
  destruct token as [t|]; [|reflexivity].
  simpl in Hbad. rewrite isValid_valid_at.
  unfold new_AccessToken. destruct t as [a e]; simpl in *.
  rewrite Hbad. reflexivity.
Qed.

Lemma ensureAccessToken_usable (this : API) (w w1 : World) (t : AccessToken) :
  getToken this w = (Return (Some t), w1) ->
  valid_at (clock w1) t = true ->
  ensureAccessToken this w = (Return t, w1).
Proof.
  intros Hget Hok. unfold ensureAccessToken, bind. rewrite Hget.
  rewrite isValid_valid_at. unfold new_AccessToken.
  destruct t as [a e]; simpl in *. rewrite Hok. reflexivity.
Qed.

(** C5. With [tokenFromCustom] set and the stored credential missing or
    invalid, [ensureAccessToken] throws the [WeChatAPIError] with code
    40001; the world is the one [getToken] left, so no transport call is
    made. *)
Theorem ensureAccessToken_custom_fails (this : API) (w w1 : World)
    (token : option AccessToken) :
  tokenFromCustom this = true ->
  getToken this w = (Return token, w1) ->
  unusable (clock w1) token ->
  ensureAccessToken this w
    = (Throw (WeChatAPIError (Literal "accessToken Error") (Some (JSnum 40001))), w1)
  /\ sent (ensureAccessToken this w).2 = sent w1.
Proof.
  intros Hmode Hget Hbad.
  rewrite (ensureAccessToken_unusable this w w1 token Hget Hbad).
  unfold no_valid_token. rewrite Hmode. split; reflexivity.
Qed.

Lemma ensureAccessToken_custom_fails_witness :
  ensureAccessToken custom_tokens stale_world
    = (Throw (WeChatAPIError (Literal "accessToken Error") (Some (JSnum 40001))), stale_world)
  /\ sent (ensureAccessToken custom_tokens stale_world).2 = sent stale_world.
Proof.
  apply (ensureAccessToken_custom_fails custom_tokens stale_world stale_world
           (Some (mkAccessToken (Some "T0") (ENumber 500)))).
  - reflexivity.
  - reflexivity.
  - reflexivity.
Defined.

(** A stored credential whose [expireTime] is a numeric string is not an
    invalid one: with [tokenFromCustom] set, [ensureAccessToken] returns
    it while the clock is before that number, and fails from then on. *)
Example ensureAccessToken_numeric_string :
  let token := mkAccessToken (Some "T0") (EString "7190000" (Some 7190000)) in
  ensureAccessToken custom_tokens (set_store (Some token) (fresh_world 1000 (serve 1000 [])))
    = (Return token, set_store (Some token) (fresh_world 1000 (serve 1000 []))) /\
  ensureAccessToken custom_tokens (set_store (Some token) (fresh_world 7190000 (serve 1000 [])))
    = (Throw (WeChatAPIError (Literal "accessToken Error") (Some (JSnum 40001))),
       set_store (Some token) (fresh_world 7190000 (serve 1000 []))).
Proof. split; reflexivity. Qed.

(** C4, as the specification states it, fails: a self-managed client
    with nothing stored gets an error, not a credential. *)
Lemma ensureAccessToken_self_managed_counterexample :
  tokenFromCustom self_managed = false /\
  getToken self_managed (fresh_world 1000 (serve 1000 [json_response 200 granted_body]))
    = (Return None, fresh_world 1000 (serve 1000 [json_response 200 granted_body])) /\
  ~ exists token w',
      ensureAccessToken self_managed
        (fresh_world 1000 (serve 1000 [json_response 200 granted_body])) = (Return token, w').
Proof.
  split; [reflexivity|]. split; [reflexivity|].
  intros (token & w' & H). vm_compute in H. discriminate H.
Qed.

(** C4, amended. Without [tokenFromCustom], a missing or invalid stored
    credential makes [ensureAccessToken] throw the plain
    [Error("can't set access token")], which carries no code; the world is
    the one [getToken] left: nothing is acquired or saved. *)
Theorem ensureAccessToken_self_managed_fails (this : API) (w w1 : World)
    (token : option AccessToken) :
  tokenFromCustom this = false ->
  getToken this w = (Return token, w1) ->
  unusable (clock w1) token ->
  ensureAccessToken this w = (Throw (Error (Literal "can't set access token")), w1).
Proof.
  intros Hmode Hget Hbad.
  rewrite (ensureAccessToken_unusable this w w1 token Hget Hbad).
  unfold no_valid_token. rewrite Hmode. reflexivity.
Qed.

Lemma ensureAccessToken_self_managed_fails_witness :
  ensureAccessToken self_managed (fresh_world 1000 (serve 1000 []))
    = (Throw (Error (Literal "can't set access token")), fresh_world 1000 (serve 1000 [])).
Proof.
  apply (ensureAccessToken_self_managed_fails self_managed _ _ None).
  - reflexivity.
  - reflexivity.
  - exact I.
Defined.

(** ** [API.mixin] *)

Section MixinFacts.

Context {Method : Type}.
Context (call : Method -> gmap string Method -> string -> (exn + bool) * gmap string Method).
Implicit Types (obj : list (string * Method)) (proto : gmap string Method).









End MixinFacts.




(** ** The option merge touches the heap only *)

Lemma heap_only_refl (w : World) : heap_only w w.
Proof. repeat split. Qed.

Lemma heap_only_trans (w1 w2 w3 : World) :
  heap_only w1 w2 -> heap_only w2 w3 -> heap_only w1 w3.
Proof.
  unfold heap_only. intros (?&?&?&?&?&?) (?&?&?&?&?&?).
  repeat split; congruence.
Qed.

Lemma heap_only_set_heap (h : list obj) (w : World) : heap_only w (set_heap h w).
Proof. repeat split. Qed.

Lemma touches_ret {A} (a : A) : touches_heap_only (ret a).
Proof. intros w. apply heap_only_refl. Qed.

Lemma touches_bind {A B} (c : M A) (k : A -> M B) :
  touches_heap_only c -> (forall a, touches_heap_only (k a)) ->
  touches_heap_only (bind c k).
Proof.
  intros Hc Hk w. unfold bind. specialize (Hc w).
  destruct (c w) as [[a|e|] w']; simpl in *; try exact Hc.
  eapply heap_only_trans; [exact Hc|]. apply Hk.
Qed.

Lemma touches_get_prop (v : jsval) (key : string) : touches_heap_only (get_prop v key).
Proof. intros w. apply heap_only_refl. Qed.

Lemma touches_new_object : touches_heap_only new_object.
Proof. intros w. apply heap_only_set_heap. Qed.

Lemma touches_Object_assign (target source : jsval) :
  touches_heap_only (Object_assign target source).
Proof.
  intros w. unfold Object_assign.
  destruct target; try apply heap_only_refl; try apply heap_only_set_heap.
  destruct (existsb _ _); apply heap_only_refl.
Qed.

Lemma touches_merge_keys (opts : jsval) (keys : list string) (options : obj) :
  touches_heap_only (merge_keys opts keys options).
Proof.
  revert options. induction keys as [|key keys IH]; intros options; [apply touches_ret|].
  cbn [merge_keys]. destruct (negb (String.eqb key "headers")).
  - apply touches_bind; [apply touches_get_prop|]. intros v. apply IH.
  - apply touches_bind; [apply touches_get_prop|]. intros headers.
    destruct (truthy headers); [|apply IH].
    apply touches_bind.
    + destruct (truthy (obj_get options "headers")); [apply touches_ret|apply touches_new_object].
    + intros target. apply touches_bind; [apply touches_Object_assign|]. intros _. apply IH.
Qed.

Lemma touches_merge_options (opts : jsval) : touches_heap_only (merge_options opts).
Proof.
  unfold merge_options.
  apply touches_bind; [intros w; apply heap_only_refl|]. intros d.
  apply touches_bind; [intros w; apply heap_only_refl|]. intros props.
  apply touches_bind.
  { destruct (truthy opts); [apply touches_ret|apply touches_new_object]. }
  intros o. apply touches_bind; [intros w; apply heap_only_refl|]. intros keys.
  apply touches_bind; [apply touches_merge_keys|]. intros options. apply touches_ret.
Qed.

Lemma merge_options_frame (opts : jsval) (w w1 : World) (r : Result (jsval * obj)) :
  merge_options opts w = (r, w1) -> heap_only w w1.
Proof.
  intros H. pose proof (touches_merge_options opts w) as F. rewrite H in F. exact F.
Qed.

(** ** One attempt of [request] *)

Section Attempt.

Context (ext : Externals) (this_getAccessToken : API -> M AccessToken).
Context (this : API) (url : string) (opts : jsval) (retry : Z).
Context (w w1 w2 : World) (opts' : jsval) (options : obj) (res : Response).

Hypothesis Hmerge : merge_options opts w = (Return (opts', options), w1).
Hypothesis Hsend : httpx_request url options w1 = (Return res, w2).

Lemma attempt_status (fuel : nat) :
  statusCode res < 200 \/ 204 < statusCode res ->
  request_from ext this_getAccessToken fuel this url opts retry w
    = (Throw (status_error url (statusCode res)), w2).
Proof.
  intros Hstatus.
  assert (Hb : (statusCode res <? 200) || (204 <? statusCode res) = true).
  { apply orb_true_iff. rewrite !Z.ltb_lt. exact Hstatus. }
  destruct fuel; cbn [request_from]; unfold bind at 1; rewrite Hmerge;
    cbn [fst snd]; unfold bind at 1; rewrite Hsend, Hb; reflexivity.
Qed.

(** From here on the response is in the success range and its body can
    be read. *)
Context (buffer : Buffer).
Hypothesis Hstatus : 200 <= statusCode res <= 204.
Hypothesis Hbody : body res = inr buffer.

Let contentType := default "" (content_type res).
Let origin := Buffer_toString ext buffer.
Let w3 := after_read w2.

Lemma status_in_range : (statusCode res <? 200) || (204 <? statusCode res) = false.
Proof. apply orb_false_iff. rewrite !Z.ltb_ge. lia. Qed.

Lemma httpx_read_body : httpx_read res w2 = (Return buffer, w3).
Proof. unfold httpx_read. rewrite Hbody. reflexivity. Qed.

Ltac attempt_enter fuel :=
  destruct fuel; cbn [request_from]; unfold bind at 1; rewrite Hmerge;
  cbn [fst snd]; unfold bind at 1; rewrite Hsend, status_in_range;
  unfold bind at 1; rewrite httpx_read_body;
  fold contentType; fold origin.

Lemma attempt_other_type (fuel : nat) :
  includes contentType "application/json" = false ->
  includes contentType "text/plain" = false ->
  request_from ext this_getAccessToken fuel this url opts retry w
    = (Return (RBuffer buffer), w3).
Proof.
  intros Hjson Htext. attempt_enter fuel; rewrite Hjson, Htext; reflexivity.
Qed.

Lemma attempt_text_fallback (fuel : nat) :
  includes contentType "text/plain" = true ->
  JSONbig_parse ext (replaceJSONCtlChars ext origin) = None ->
  request_from ext this_getAccessToken fuel this url opts retry w
    = (Return (RText origin), w3).
Proof.
  intros Htext Hparse.
  attempt_enter fuel; rewrite Htext, orb_true_r, Hparse; reflexivity.
Qed.

Lemma attempt_parse_error (fuel : nat) :
  includes contentType "application/json" = true ->
  includes contentType "text/plain" = false ->
  JSONbig_parse ext (replaceJSONCtlChars ext origin) = None ->
  request_from ext this_getAccessToken fuel this url opts retry w
    = (Throw (parse_error origin), w3).
Proof.
  intros Hjson Htext Hparse.
  attempt_enter fuel; rewrite Hjson, Htext, Hparse; reflexivity.
Qed.

Section Decoded.

Context (data : json).
Hypothesis Htype :
  includes contentType "application/json" || includes contentType "text/plain" = true.
Hypothesis Hparse : JSONbig_parse ext (replaceJSONCtlChars ext origin) = Some data.

Lemma attempt_data (fuel : nat) :
  errcode_of data = None ->
  request_from ext this_getAccessToken fuel this url opts retry w = (Return (RData data), w3).
Proof.
  intros Hcode. attempt_enter fuel; rewrite Htype, Hparse, Hcode; reflexivity.
Qed.

Lemma attempt_raise (fuel : nat) (c : json) :
  errcode_of data = Some c ->
  rejection_code c && (0 <? retry) && negb (tokenFromCustom this) = false ->
  request_from ext this_getAccessToken fuel this url opts retry w
    = (Throw (api_error data c), w3).
Proof.
  intros Hcode Hcond.
  attempt_enter fuel; rewrite Htype, Hparse, Hcode, Hcond; reflexivity.
Qed.

Lemma attempt_recover (fuel : nat) (c : json) :
  errcode_of data = Some c ->
  rejection_code c && (0 <? retry) && negb (tokenFromCustom this) = true ->
  request_from ext this_getAccessToken (S fuel) this url opts retry w
    = (saveToken this None >>
       let* token := this_getAccessToken this in
       request_from ext this_getAccessToken fuel this
         (liburl_format ext (rewrite_token (liburl_parse ext url) token)) opts' (retry - 1)) w3.
Proof.
  intros Hcode Hcond.
  cbn [request_from]; unfold bind at 1; rewrite Hmerge;
  cbn [fst snd]; unfold bind at 1; rewrite Hsend, status_in_range;
  unfold bind at 1; rewrite httpx_read_body;
  fold contentType; fold origin.
  rewrite Htype, Hparse, Hcode, Hcond. reflexivity.
Qed.

End Decoded.

End Attempt.

Lemma answered_frame url opts w opts' options res w2 :
  answered url opts w opts' options res w2 ->
  store w2 = store w /\ defaults w2 = defaults w /\ reads w2 = reads w /\
  length (sent w2) = S (length (sent w)) /\
  (exists w1, heap_only w w1 /\ w2 = after_call url options w1).
Proof.
  intros (w1 & Hmerge & Hsend).
  pose proof (merge_options_frame _ _ _ _ Hmerge) as F.
  assert (Hw2 : w2 = after_call url options w1).
  { unfold httpx_request in Hsend.
    destruct (answer (remote w1 (length (sent w1)))); congruence. }
  split; [|split; [|split; [|split]]].
  - subst w2. cbn. apply F.
  - subst w2. cbn. apply F.
  - subst w2. cbn. apply F.
  - subst w2. cbn. rewrite length_app. cbn.
    destruct F as (_ & _ & _ & _ & -> & _). lia.
  - exists w1. split; [exact F|exact Hw2].
Qed.

(** ** Transport failures *)

(** C9. A response whose status is below 200 or above 204 makes [request]
    throw the [WeChatAPIError] built from the url and the status. The
    world is the one the transport call left: no body was read, the
    stored credential is untouched, and the call was the only one. *)
Theorem request_status_error (ext : Externals) (this_getAccessToken : API -> M AccessToken)
    (this : API) (url : string) (opts : jsval) (retry : option Z) (w : World)
    (opts' : jsval) (options : obj) (res : Response) (w2 : World) :
  answered url opts w opts' options res w2 ->
  statusCode res < 200 \/ 204 < statusCode res ->
  request_with ext this_getAccessToken this url opts retry w
    = (Throw (WeChatAPIError
                (Literal ("url: " +:+ url +:+ ", status code: " +:+ decimal (statusCode res)))
                None), w2)
  /\ reads w2 = reads w
  /\ store w2 = store w
  /\ length (sent w2) = S (length (sent w)).
Proof.
  intros Hans Hstatus.
  destruct (answered_frame _ _ _ _ _ _ _ Hans) as (Hstore & _ & Hreads & Hsent & _).
  destruct Hans as (w1 & Hmerge & Hsend).
  split; [|auto].
  unfold request_with.
  apply (attempt_status ext this_getAccessToken this url opts _ w w1 w2 opts' options res
           Hmerge Hsend _ Hstatus).
Qed.

Lemma request_status_error_witness :
  exists w2,
    request toy_ext self_managed menu_url JUndefined None failing_world
      = (Throw (WeChatAPIError
                  (Literal "url: https://api.weixin.qq.com/cgi-bin/menu/get, status code: 500")
                  None), w2)
    /\ reads w2 = 0%nat /\ store w2 = None /\ length (sent w2) = 1%nat.
Proof.
  eexists.
  apply (request_status_error toy_ext (getAccessToken toy_ext) self_managed menu_url
           JUndefined None failing_world (JRef 1) [] (json_response 500 busy_body)).
  - eexists. split; vm_compute; reflexivity.
  - right. vm_compute. reflexivity.
Defined.

(** ** Decoding the body *)

(** C7. For a response in the success range whose body was read: a
    content type containing [application/json] or [text/plain] has the
    body decoded by [JSONbig.parse] after [replaceJSONCtlChars], and the
    decoded value is returned when it carries no error code; when decoding
    fails, a [text/plain] body is returned as text and a JSON body throws
    the [WeChatAPIError] that embeds the text, after one transport call
    only; any other content type returns the buffer as it was read. *)
Theorem request_decoding (ext : Externals) (this_getAccessToken : API -> M AccessToken)
    (this : API) (url : string) (opts : jsval) (retry : option Z) (w : World)
    (opts' : jsval) (options : obj) (res : Response) (w2 : World) (buffer : Buffer) :
  answered url opts w opts' options res w2 ->
  readable res buffer ->
  let contentType := contentType_of res in
  let origin := Buffer_toString ext buffer in
  let decoded := JSONbig_parse ext (replaceJSONCtlChars ext origin) in
  let outcome := request_with ext this_getAccessToken this url opts retry w in
  (forall data,
     includes contentType "application/json" || includes contentType "text/plain" = true ->
     decoded = Some data -> errcode_of data = None ->
     outcome = (Return (RData data), after_read w2)) /\
  (includes contentType "text/plain" = true -> decoded = None ->
     outcome = (Return (RText origin), after_read w2)) /\
  (includes contentType "application/json" = true ->
   includes contentType "text/plain" = false -> decoded = None ->
     outcome = (Throw (WeChatAPIError (Literal ("JSON.parse error. buffer is " +:+ origin)) None),
                after_read w2) /\
     length (sent (after_read w2)) = S (length (sent w))) /\
  (includes contentType "application/json" = false ->
   includes contentType "text/plain" = false ->
     outcome = (Return (RBuffer buffer), after_read w2)).
Proof.
  intros Hans [Hstatus Hbody]. cbv zeta.
  pose proof (answered_frame _ _ _ _ _ _ _ Hans) as (_ & _ & _ & Hsent & _).
  destruct Hans as (w1 & Hmerge & Hsend).
  unfold request_with, contentType_of.
  split; [|split; [|split]].
  - intros data Htype Hparse Hcode.
    exact (attempt_data ext this_getAccessToken this url opts _ w w1 w2 opts' options res
             Hmerge Hsend buffer Hstatus Hbody data Htype Hparse _ Hcode).
  - intros Htext Hparse.
    exact (attempt_text_fallback ext this_getAccessToken this url opts _ w w1 w2 opts' options
             res Hmerge Hsend buffer Hstatus Hbody _ Htext Hparse).
  - intros Hjson Htext Hparse. split; [|exact Hsent].
    exact (attempt_parse_error ext this_getAccessToken this url opts _ w w1 w2 opts' options
             res Hmerge Hsend buffer Hstatus Hbody _ Hjson Htext Hparse).
  - intros Hjson Htext.
    exact (attempt_other_type ext this_getAccessToken this url opts _ w w1 w2 opts' options
             res Hmerge Hsend buffer Hstatus Hbody _ Hjson Htext).
Qed.

Lemma request_decoding_witness :
  exists w2,
    answered menu_url JUndefined text_world (JRef 1) []
      (mkResponse 200 (Some "text/plain") (inr (String.list_byte_of_string "plain words"))) w2 /\
    request toy_ext self_managed menu_url JUndefined None text_world
      = (Return (RText "plain words"), after_read w2).
Proof.
  eexists. split.
  - eexists. split; vm_compute; reflexivity.
  - refine (proj1 (proj2 (request_decoding toy_ext (getAccessToken toy_ext) self_managed
              menu_url JUndefined None text_world (JRef 1) []
              (mkResponse 200 (Some "text/plain")
                 (inr (String.list_byte_of_string "plain words")))
              _ (String.list_byte_of_string "plain words") _ _)) _ _).
    + eexists. split; vm_compute; reflexivity.
    + split; [vm_compute; split; discriminate|reflexivity].
    + reflexivity.
    + reflexivity.
Defined.

(** ** [getAccessToken] stops at its guard *)

Lemma getAccessToken_with_guard
    (this_request : API -> string -> jsval -> option Z -> M reply) (this : API) :
  getAccessToken_with this_request this = throw guard_error.
Proof. reflexivity. Qed.

(** The pair [request], [getAccessToken] solves the mutual recursion of
    the source: [getAccessToken] is the method body over [request]. *)
Lemma getAccessToken_unfold (ext : Externals) :
  getAccessToken ext = getAccessToken_with (request ext).
Proof. reflexivity. Qed.

Lemma getAccessToken_throws (ext : Externals) (this : API) (w : World) :
  getAccessToken ext this w = (Throw guard_error, w).
Proof. reflexivity. Qed.

(** ** The fuel of [request_from] is enough *)

Lemma settles_ret {A} (a : A) : settles (ret a).
Proof. intros w. discriminate. Qed.

Lemma settles_throw {A} (e : exn) : settles (throw (A := A) e).
Proof. intros w. discriminate. Qed.

Lemma settles_bind {A B} (c : M A) (k : A -> M B) :
  settles c -> (forall a, settles (k a)) -> settles (bind c k).
Proof.
  intros Hc Hk w. unfold bind. specialize (Hc w).
  destruct (c w) as [[a|e|] w']; cbn in *; try discriminate; [apply Hk|congruence].
Qed.

Lemma settles_Object_assign (target source : jsval) : settles (Object_assign target source).
Proof.
  intros w. unfold Object_assign.
  destruct target; try discriminate. destruct (existsb _ _); discriminate.
Qed.

Lemma settles_merge_keys (opts : jsval) (keys : list string) (options : obj) :
  settles (merge_keys opts keys options).
Proof.
  revert options. induction keys as [|key keys IH]; intros options; [apply settles_ret|].
  cbn [merge_keys]. destruct (negb (String.eqb key "headers")).
  - apply settles_bind; [intros w; discriminate|]. intros v. apply IH.
  - apply settles_bind; [intros w; discriminate|]. intros headers.
    destruct (truthy headers); [|apply IH].
    apply settles_bind.
    + destruct (truthy (obj_get options "headers")); intros w; discriminate.
    + intros target. apply settles_bind; [apply settles_Object_assign|]. intros _. apply IH.
Qed.

Lemma settles_merge_options (opts : jsval) : settles (merge_options opts).
Proof.
  unfold merge_options.
  apply settles_bind; [intros w; discriminate|]. intros d.
  apply settles_bind; [intros w; discriminate|]. intros props.
  apply settles_bind; [destruct (truthy opts); intros w; discriminate|]. intros o.
  apply settles_bind; [intros w; discriminate|]. intros keys.
  apply settles_bind; [apply settles_merge_keys|]. intros options. apply settles_ret.
Qed.

Lemma settles_httpx_request (url : string) (options : obj) : settles (httpx_request url options).
Proof. intros w. unfold httpx_request. destruct (answer _); discriminate. Qed.

Lemma settles_httpx_read (res : Response) : settles (httpx_read res).
Proof. intros w. unfold httpx_read. destruct (body res); discriminate. Qed.

(** With [Z.to_nat retry] units of fuel, [request_from] returns or throws
    whenever the hooks and [getAccessToken] do. *)
Lemma request_from_settles (ext : Externals) (this_getAccessToken : API -> M AccessToken)
    (this : API) :
  (forall t, settles (saveToken this t)) ->
  settles (this_getAccessToken this) ->
  forall fuel url opts retry,
    (Z.to_nat retry <= fuel)%nat ->
    settles (request_from ext this_getAccessToken fuel this url opts retry).
Proof.
  intros Hsave Hget fuel.
  induction fuel as [|fuel IH]; intros url opts retry Hfuel; cbn [request_from].
  all: apply settles_bind; [apply settles_merge_options|intros merged].
  all: apply settles_bind; [apply settles_httpx_request|intros res].
  all: destruct (_ || _); [apply settles_throw|].
  all: apply settles_bind; [apply settles_httpx_read|intros buffer].
  all: destruct (_ || _); [|apply settles_ret].
  all: destruct (JSONbig_parse ext _) as [data|];
    [|destruct (includes _ _); [apply settles_ret|apply settles_throw]].
  all: destruct (errcode_of data) as [c|]; [|apply settles_ret].
  all: destruct (0 <? retry) eqn:Hretry;
    [apply Z.ltb_lt in Hretry|rewrite andb_false_r; apply settles_throw].
  all: destruct (rejection_code c && true && negb (tokenFromCustom this));
    [|apply settles_throw].
  - lia.
  - apply settles_bind; [apply Hsave|intros _].
    apply settles_bind; [apply Hget|intros token]. apply IH. lia.
Qed.

(** More fuel changes nothing. *)
Lemma request_from_fuel (ext : Externals) (this_getAccessToken : API -> M AccessToken)
    (this : API) (fuel fuel' : nat) (url : string) (opts : jsval) (retry : Z) (w : World) :
  (Z.to_nat retry <= fuel)%nat -> (Z.to_nat retry <= fuel')%nat ->
  request_from ext this_getAccessToken fuel this url opts retry w
    = request_from ext this_getAccessToken fuel' this url opts retry w.
Proof.
  revert fuel' url opts retry w.
  induction fuel as [|fuel IH]; intros fuel' url opts retry w Hfuel Hfuel';
    destruct fuel' as [|fuel']; try reflexivity; cbn [request_from].
  all: apply bind_ext; intros merged w1.
  all: apply bind_ext; intros res w2.
  all: destruct (_ || _); [reflexivity|].
  all: apply bind_ext; intros buffer w3.
  all: destruct (_ || _); [|reflexivity].
  all: destruct (JSONbig_parse ext _) as [data|]; [|reflexivity].
  all: destruct (errcode_of data) as [c|]; [|reflexivity].
  all: destruct (0 <? retry) eqn:Hretry;
    [apply Z.ltb_lt in Hretry|rewrite andb_false_r; reflexivity].
  all: try lia.
  destruct (rejection_code c && true && negb (tokenFromCustom this)); [|reflexivity].
  apply bind_ext; intros _ w4. apply bind_ext; intros token w5. apply IH; lia.
Qed.

(** [request] of the class always returns or throws, whatever the retry
    budget, as long as the [saveToken] hook does. *)
Lemma request_settles (ext : Externals) (this : API) (url : string) (opts : jsval)
    (retry : option Z) :
  (forall t, settles (saveToken this t)) ->
  settles (request ext this url opts retry).
Proof.
  intros Hsave. unfold request, request_with.
  apply request_from_settles; [exact Hsave| |lia].
  intros w. discriminate.
Qed.

(** ** Counting transport calls *)

Lemma calls_le_mono {A} (n m : nat) (c : M A) :
  (n <= m)%nat -> calls_le n c -> calls_le m c.
Proof. intros Hle Hc w. specialize (Hc w). lia. Qed.

Lemma calls_le_ret {A} (a : A) : calls_le 0 (ret a).
Proof. intros w. cbn. lia. Qed.

Lemma calls_le_throw {A} (e : exn) : calls_le 0 (throw (A := A) e).
Proof. intros w. cbn. lia. Qed.

Lemma calls_le_bind {A B} (n m : nat) (c : M A) (k : A -> M B) :
  calls_le n c -> (forall a, calls_le m (k a)) -> calls_le (n + m) (bind c k).
Proof.
  intros Hc Hk w. unfold bind. specialize (Hc w).
  destruct (c w) as [[a|e|] w']; cbn in *; try lia.
  specialize (Hk a w'). lia.
Qed.

Lemma calls_le_silent {A} (c : M A) : silent c -> calls_le 0 c.
Proof. intros Hc w. rewrite (Hc w). lia. Qed.

Lemma calls_le_heap_only {A} (c : M A) : touches_heap_only c -> calls_le 0 c.
Proof.
  intros Hc. apply calls_le_silent. intros w.
  destruct (Hc w) as (_ & _ & _ & _ & H & _). exact H.
Qed.

Lemma calls_le_httpx_request (url : string) (options : obj) :
  calls_le 1 (httpx_request url options).
Proof.
  intros w. unfold httpx_request.
  destruct (answer _); cbn; rewrite length_app; cbn; lia.
Qed.

Lemma calls_le_httpx_read (res : Response) : calls_le 0 (httpx_read res).
Proof. intros w. unfold httpx_read. destruct (body res); cbn; lia. Qed.

(** One attempt makes one call, plus what the recovery path makes. *)
Lemma request_from_calls_step (ext : Externals) (this_getAccessToken : API -> M AccessToken)
    (fuel : nat) (this : API) (url : string) (opts : jsval) (retry : Z) (n : nat) :
  (forall t, silent (saveToken this t)) ->
  (0 < retry ->
   forall opts',
     calls_le n
       (let* token := this_getAccessToken this in
        match fuel with
        | S fuel =>
            request_from ext this_getAccessToken fuel this
              (liburl_format ext (rewrite_token (liburl_parse ext url) token)) opts' (retry - 1)
        | O => fun w => (OutOfFuel, w)
        end)) ->
  calls_le (1 + n) (request_from ext this_getAccessToken fuel this url opts retry).
Proof.
  intros Hsave Hnext.
  assert (Hbody : calls_le (0 + (1 + (0 + n)))
            (request_from ext this_getAccessToken fuel this url opts retry)).
  { destruct fuel; cbn [request_from].
    all: apply calls_le_bind;
      [apply calls_le_heap_only, touches_merge_options|intros merged].
    all: apply calls_le_bind; [apply calls_le_httpx_request|intros res].
    all: destruct (_ || _); [eapply calls_le_mono; [|apply calls_le_throw]; lia|].
    all: apply calls_le_bind; [apply calls_le_httpx_read|intros buffer].
    all: destruct (_ || _); [|eapply calls_le_mono; [|apply calls_le_ret]; lia].
    all: destruct (JSONbig_parse ext _) as [data|];
      [|destruct (includes _ _);
        eapply calls_le_mono; try apply calls_le_ret; try apply calls_le_throw; lia].
    all: destruct (errcode_of data) as [c|];
      [|eapply calls_le_mono; [|apply calls_le_ret]; lia].
    all: destruct (rejection_code c); cbn [andb];
      [|eapply calls_le_mono; [|apply calls_le_throw]; lia].
    all: destruct (0 <? retry) eqn:Hretry; cbn [andb];
      [|eapply calls_le_mono; [|apply calls_le_throw]; lia].
    all: destruct (negb (tokenFromCustom this));
      [|eapply calls_le_mono; [|apply calls_le_throw]; lia].
    all: apply Z.ltb_lt in Hretry.
    all: change n with (0 + n)%nat;
      apply calls_le_bind; [apply calls_le_silent, Hsave|intros _].
    all: apply (Hnext Hretry merged.1). }
  eapply calls_le_mono; [|exact Hbody]. lia.
Qed.

(** With hooks that stay off the transport, a call of [request] makes at
    most one transport call more than its retry budget. *)
Lemma request_from_calls (ext : Externals) (this_getAccessToken : API -> M AccessToken)
    (this : API) :
  (forall t, silent (saveToken this t)) ->
  silent (this_getAccessToken this) ->
  forall fuel url opts retry,
    calls_le (1 + Z.to_nat retry)
      (request_from ext this_getAccessToken fuel this url opts retry).
Proof.
  intros Hsave Hget fuel. induction fuel as [|fuel IH]; intros url opts retry.
  - apply request_from_calls_step; [exact Hsave|]. intros _ opts'.
    change (Z.to_nat retry) with (0 + Z.to_nat retry)%nat.
    apply calls_le_bind; [apply calls_le_silent, Hget|].
    intros token w. cbn. lia.
  - apply request_from_calls_step; [exact Hsave|]. intros Hretry opts'.
    replace (Z.to_nat retry) with (0 + (1 + Z.to_nat (retry - 1)))%nat by lia.
    apply calls_le_bind; [apply calls_le_silent, Hget|].
    intros token. apply IH.
Qed.

(** The class itself never gets past the first call. *)
Lemma request_calls (ext : Externals) (this : API) (url : string) (opts : jsval)
    (retry : option Z) :
  (forall t, silent (saveToken this t)) ->
  calls_le 1 (request ext this url opts retry).
Proof.
  intros Hsave. unfold request, request_with.
  apply (request_from_calls_step ext (getAccessToken ext) _ this url opts _ 0 Hsave).
  intros _ opts' w. cbn. lia.
Qed.

(** ** The recovery path *)

Lemma is_number_true (c : json) (n : Z) : is_number c n = true <-> c = JSnum n.
Proof.
  destruct c; simpl; try (split; [discriminate|intros [=]]).
  rewrite Z.eqb_eq. split; [intros ->; reflexivity|intros [= ->]; reflexivity].
Qed.

Lemma rejection_code_true (c : json) :
  rejection_code c = true <-> c = JSnum 40001 \/ c = JSnum 42001.
Proof. unfold rejection_code. rewrite orb_true_iff, !is_number_true. reflexivity. Qed.

Lemma recovers_iff (c : json) (budget : Z) (this : API) :
  rejection_code c && (0 <? budget) && negb (tokenFromCustom this) = true <->
  (c = JSnum 40001 \/ c = JSnum 42001) /\ 0 < budget /\ tokenFromCustom this = false.
Proof.
  rewrite !andb_true_iff, rejection_code_true, Z.ltb_lt, negb_true_iff. tauto.
Qed.

(** The recovery step of a call with its budget defaulted. *)
Lemma request_with_recover (ext : Externals) (this_getAccessToken : API -> M AccessToken)
    (this : API) (url : string) (opts : jsval) (retry : option Z) (w : World)
    (opts' : jsval) (options : obj) (res : Response) (w2 : World) (buffer : Buffer)
    (data c : json) :
  answered url opts w opts' options res w2 ->
  readable res buffer ->
  decodes ext res buffer data ->
  errcode_of data = Some c ->
  rejection_code c && (0 <? default 3 retry) && negb (tokenFromCustom this) = true ->
  request_with ext this_getAccessToken this url opts retry w
    = (saveToken this None >>
       let* token := this_getAccessToken this in
       request_with ext this_getAccessToken this
         (liburl_format ext (rewrite_token (liburl_parse ext url) token)) opts'
         (Some (default 3 retry - 1))) (after_read w2).
Proof.
  intros (w1 & Hmerge & Hsend) [Hstatus Hbody] [Htype Hparse] Hcode Hcond.
  assert (Hpos : 0 < default 3 retry).
  { apply recovers_iff in Hcond. tauto. }
  unfold request_with at 1.
  replace (Z.to_nat (default 3 retry)) with (S (Z.to_nat (default 3 retry - 1))) by lia.
  exact (attempt_recover ext this_getAccessToken this url opts _ w w1 w2 opts' options res
           Hmerge Hsend buffer Hstatus Hbody data Htype Hparse _ c Hcode Hcond).
Qed.

Lemma request_with_raise (ext : Externals) (this_getAccessToken : API -> M AccessToken)
    (this : API) (url : string) (opts : jsval) (retry : option Z) (w : World)
    (opts' : jsval) (options : obj) (res : Response) (w2 : World) (buffer : Buffer)
    (data c : json) :
  answered url opts w opts' options res w2 ->
  readable res buffer ->
  decodes ext res buffer data ->
  errcode_of data = Some c ->
  rejection_code c && (0 <? default 3 retry) && negb (tokenFromCustom this) = false ->
  request_with ext this_getAccessToken this url opts retry w
    = (Throw (api_error data c), after_read w2).
Proof.
  intros (w1 & Hmerge & Hsend) [Hstatus Hbody] [Htype Hparse] Hcode Hcond.
  exact (attempt_raise ext this_getAccessToken this url opts _ w w1 w2 opts' options res
           Hmerge Hsend buffer Hstatus Hbody data Htype Hparse _ c Hcode Hcond).
Qed.

(** In the class itself the recovery ends at the guard. *)
Lemma request_recover_guard (ext : Externals) (this : API) (url : string) (opts : jsval)
    (retry : option Z) (w : World) (opts' : jsval) (options : obj) (res : Response)
    (w2 : World) (buffer : Buffer) (data c : json) :
  answered url opts w opts' options res w2 ->
  readable res buffer ->
  decodes ext res buffer data ->
  errcode_of data = Some c ->
  rejection_code c && (0 <? default 3 retry) && negb (tokenFromCustom this) = true ->
  request ext this url opts retry w
    = (saveToken this None >> throw guard_error) (after_read w2).
Proof.
  intros Hans Hread Hdec Hcode Hcond. unfold request.
  rewrite (request_with_recover ext (getAccessToken ext) this url opts retry w opts' options
             res w2 buffer data c Hans Hread Hdec Hcode Hcond).
  unfold bind. destruct (saveToken this None (after_read w2)) as [[[]|e|] w4]; reflexivity.
Qed.

(** C1, as the specification states it, fails: the code is 40001, the
    budget is 3 and the client is self-managed, yet the call ends with the
    guard's error after its first transport call, although the remote side
    would have accepted a second one. *)
Lemma request_retry_counterexample :
  tokenFromCustom self_managed = false /\
  toy_parse rejected_body
    = Some (JSobj [("errcode", JSnum 40001); ("errmsg", JSstr "invalid credential")]) /\
  (request toy_ext self_managed token_url JUndefined None rejecting_world).1
    = Throw (Error (Literal "super can't set access token")) /\
  sent_url <$> sent (request toy_ext self_managed token_url JUndefined None rejecting_world).2
    = [token_url].
Proof. repeat split; vm_compute; reflexivity. Qed.

(** C1, amended. For a decoded body with a truthy [errcode], [request]
    enters the recovery path exactly when the code is 40001 or 42001, the
    budget (3 by default) is positive and [tokenFromCustom] is not set: it
    saves [null] as the credential and calls [getAccessToken], and only if
    that call returns a token does it retry, on the rewritten url with the
    budget decreased by one. The [getAccessToken] of the class always
    throws, so there the guard's error is raised and nothing is retried.
    Outside the recovery path the [WeChatAPIError] with the code and the
    message of the body is thrown at once. When [saveToken] and
    [getAccessToken] make no transport call of their own, a call makes at
    most one transport call more than its budget, and the class makes at
    most one. *)
Theorem request_retry_policy (ext : Externals) (this : API) (url : string) (opts : jsval)
    (retry : option Z) (w : World) (opts' : jsval) (options : obj) (res : Response)
    (w2 : World) (buffer : Buffer) (data c : json) :
  answered url opts w opts' options res w2 ->
  readable res buffer ->
  decodes ext res buffer data ->
  errcode_of data = Some c ->
  let budget := default 3 retry in
  let recovers := rejection_code c && (0 <? budget) && negb (tokenFromCustom this) in
  (recovers = true <->
     (c = JSnum 40001 \/ c = JSnum 42001) /\ 0 < budget /\ tokenFromCustom this = false) /\
  (forall this_getAccessToken,
     recovers = true ->
     request_with ext this_getAccessToken this url opts retry w
       = (saveToken this None >>
          let* token := this_getAccessToken this in
          request_with ext this_getAccessToken this
            (liburl_format ext (rewrite_token (liburl_parse ext url) token)) opts'
            (Some (budget - 1))) (after_read w2)) /\
  (recovers = true ->
     request ext this url opts retry w
       = (saveToken this None >> throw (Error (Literal "super can't set access token")))
           (after_read w2)) /\
  (forall this_getAccessToken,
     recovers = false ->
     request_with ext this_getAccessToken this url opts retry w
       = (Throw {| name := "WeChatAPIError";
                   msg := message_of (json_get data "errmsg");
                   code := Some c |}, after_read w2)) /\
  (forall this_getAccessToken,
     (forall t, silent (saveToken this t)) ->
     silent (this_getAccessToken this) ->
     calls_le (1 + Z.to_nat budget) (request_with ext this_getAccessToken this url opts retry)) /\
  ((forall t, silent (saveToken this t)) ->
   calls_le 1 (request ext this url opts retry)).
Proof.
  intros Hans Hread Hdec Hcode. cbv zeta.
  split; [apply recovers_iff|].
  split; [intros gat Hcond; eapply request_with_recover; eassumption|].
  split; [intros Hcond; eapply request_recover_guard; eassumption|].
  split; [intros gat Hcond; eapply request_with_raise; eassumption|].
  split.
  - intros gat Hsave Hget. unfold request_with. apply request_from_calls; assumption.
  - apply request_calls.
Qed.

Lemma request_retry_policy_witness :
  request toy_ext self_managed token_url JUndefined None rejecting_world
    = (saveToken self_managed None >> throw (Error (Literal "super can't set access token")))
        (after_read (after_call token_url [] (set_heap [[]; []] rejecting_world))).
Proof.
  refine (proj1 (proj2 (proj2
    (request_retry_policy toy_ext self_managed token_url JUndefined None rejecting_world
       (JRef 1) [] (json_response 200 rejected_body)
       (after_call token_url [] (set_heap [[]; []] rejecting_world))
       (String.list_byte_of_string rejected_body)
       (JSobj [("errcode", JSnum 40001); ("errmsg", JSstr "invalid credential")])
       (JSnum 40001) _ _ _ _))) _).
  - exists (set_heap [[]; []] rejecting_world). split; reflexivity.
  - split; [vm_compute; split; discriminate|reflexivity].
  - split; reflexivity.
  - reflexivity.
  - reflexivity.
Defined.

(** ** The url of a retry *)

Lemma query_get_set_eq (q : list (string * qval)) (key : string) (v : qval) :
  query_get (query_set q key v) key = Some v.
Proof.
  induction q as [|[k v0] q IH]; simpl.
  - rewrite String.eqb_refl. reflexivity.
  - destruct (String.eqb k key) eqn:E; simpl; rewrite E; [reflexivity|exact IH].
Qed.

Lemma query_get_set_ne (q : list (string * qval)) (key key' : string) (v : qval) :
  key' <> key -> query_get (query_set q key v) key' = query_get q key'.
Proof.
  intros Hne. induction q as [|[k v0] q IH]; simpl.
  - destruct (String.eqb_spec key key'); [congruence|reflexivity].
  - destruct (String.eqb_spec k key) as [->|Hk]; simpl.
    + destruct (String.eqb_spec key key'); [congruence|reflexivity].
    + destruct (String.eqb k key'); [reflexivity|exact IH].
Qed.

Lemma query_set_keys (q : list (string * qval)) (key : string) (v : qval) :
  is_Some (query_get q key) -> (query_set q key v).*1 = q.*1.
Proof.
  induction q as [|[k v0] q IH]; simpl; intros Hin.
  - destruct Hin; discriminate.
  - destruct (String.eqb k key); simpl; [reflexivity|].
    f_equal. apply IH, Hin.
Qed.

Lemma qtruthy_is_Some (v : option qval) : qtruthy v = true -> is_Some v.
Proof. destruct v; [eauto|discriminate]. Qed.

(** The rewrite changes the token entry and [search], nothing else. *)
Lemma rewrite_token_frame (urlobj : Url) (token : AccessToken) :
  parts (rewrite_token urlobj token) = parts urlobj /\
  (query (rewrite_token urlobj token)).*1 = (query urlobj).*1 /\
  (forall key, key <> "access_token" ->
     query_get (query (rewrite_token urlobj token)) key = query_get (query urlobj) key) /\
  (qtruthy (query_get (query urlobj) "access_token") = true ->
     query_get (query (rewrite_token urlobj token)) "access_token"
       = Some (qval_of (accessToken token)) /\
     search (rewrite_token urlobj token) = None) /\
  (qtruthy (query_get (query urlobj) "access_token") = false ->
     rewrite_token urlobj token = urlobj).
Proof.
  unfold rewrite_token.
  destruct (qtruthy (query_get (query urlobj) "access_token")) eqn:E; cbn.
  - split; [reflexivity|].
    split; [apply query_set_keys, qtruthy_is_Some, E|].
    split; [intros key Hne; apply query_get_set_ne, Hne|].
    split; [intros _; split; [apply query_get_set_eq|reflexivity]|discriminate].
  - repeat split; try reflexivity; discriminate.
Qed.

(** C6, as the specification states it, fails. The [getAccessToken] of
    the class throws, so a retry needs an override; here the override
    hands back the credential that was stored ([reissuing]). A retry is
    issued, yet the credential cached after the re-acquisition is the one
    the failed attempt used; and although the token is the same, the url
    of the retry is not the original one: [url.format] writes the parsed
    query anew, and the bare [debug] comes back as [debug=]. *)
Lemma retry_url_counterexample :
  sent_url <$>
    sent (request_with toy_ext reissuing self_managed debug_url JUndefined None
            rejecting_world).2
    = [debug_url; menu_url +:+ "?access_token=T0&debug="] /\
  debug_url = menu_url +:+ "?access_token=T0&debug" /\
  store rejecting_world = Some (mkAccessToken (Some "T0") (ENumber 7190000)) /\
  store (request_with toy_ext reissuing self_managed debug_url JUndefined None
           rejecting_world).2
    = Some (mkAccessToken (Some "T0") (ENumber 7190000)) /\
  menu_url +:+ "?access_token=T0&debug=" <> debug_url.
Proof.
  split; [vm_compute; reflexivity|]. split; [reflexivity|]. split; [reflexivity|].
  split; [vm_compute; reflexivity|]. vm_compute. discriminate.
Qed.

(** C6, amended. A retry is issued only where [getAccessToken] returns a
    token. It is [request] on [liburl.format] of the parsed original url,
    with the same options and the budget decreased by one, in the world
    [getAccessToken] left: [request] itself has only saved [null], and
    which credential is cached at the retry is up to [getAccessToken]. If
    the parsed query holds a truthy [access_token], that entry becomes the
    token's [accessToken] and [search] is dropped, otherwise the parsed
    url is formatted as it is; the other query entries, their order and
    every other field of the parsed url are handed to [liburl.format] as
    parsed. *)
Theorem retry_url (ext : Externals) (this_getAccessToken : API -> M AccessToken)
    (this : API) (url : string) (opts : jsval) (retry : option Z) (w : World)
    (opts' : jsval) (options : obj) (res : Response) (w2 : World) (buffer : Buffer)
    (data c : json) (w4 : World) (token : AccessToken) (w5 : World) :
  answered url opts w opts' options res w2 ->
  readable res buffer ->
  decodes ext res buffer data ->
  errcode_of data = Some c ->
  rejection_code c && (0 <? default 3 retry) && negb (tokenFromCustom this) = true ->
  saveToken this None (after_read w2) = (Return tt, w4) ->
  this_getAccessToken this w4 = (Return token, w5) ->
  let urlobj := liburl_parse ext url in
  let urlobj' := rewrite_token urlobj token in
  request_with ext this_getAccessToken this url opts retry w
    = request_with ext this_getAccessToken this (liburl_format ext urlobj') opts'
        (Some (default 3 retry - 1)) w5 /\
  (saveToken this = default_saveToken -> store w4 = None) /\
  parts urlobj' = parts urlobj /\
  (query urlobj').*1 = (query urlobj).*1 /\
  (forall key, key <> "access_token" ->
     query_get (query urlobj') key = query_get (query urlobj) key) /\
  (qtruthy (query_get (query urlobj) "access_token") = true ->
     query_get (query urlobj') "access_token" = Some (qval_of (accessToken token)) /\
     search urlobj' = None) /\
  (qtruthy (query_get (query urlobj) "access_token") = false -> urlobj' = urlobj).
Proof.
  intros Hans Hread Hdec Hcode Hcond Hsave Hget. cbv zeta.
  split.
  { rewrite (request_with_recover ext this_getAccessToken this url opts retry w opts' options
               res w2 buffer data c Hans Hread Hdec Hcode Hcond).
    unfold bind at 1. rewrite Hsave. unfold bind at 1. rewrite Hget. reflexivity. }
  split.
  { intros Hdefault. rewrite Hdefault in Hsave. injection Hsave as <-. reflexivity. }
  apply rewrite_token_frame.
Qed.

Lemma retry_url_witness :
  request_with toy_ext renewing self_managed token_url JUndefined None rejecting_world
    = (Return (RData (JSobj [("errcode", JSnum 0); ("errmsg", JSstr "ok")])),
       (request_with toy_ext renewing self_managed token_url JUndefined None rejecting_world).2)
  /\ sent_url <$> sent (request_with toy_ext renewing self_managed token_url JUndefined None
                          rejecting_world).2
     = [token_url; menu_url +:+ "?access_token=T2&lang=zh"].
Proof.
  destruct (retry_url toy_ext renewing self_managed token_url JUndefined None rejecting_world
       (JRef 1) [] (json_response 200 rejected_body)
       (after_call token_url [] (set_heap [[]; []] rejecting_world))
       (String.list_byte_of_string rejected_body)
       (JSobj [("errcode", JSnum 40001); ("errmsg", JSstr "invalid credential")])
       (JSnum 40001)
       (set_store None (after_read (after_call token_url [] (set_heap [[]; []] rejecting_world))))
       (new_AccessToken (Some "T2") (ENumber 7200000))
       (set_store (Some (new_AccessToken (Some "T2") (ENumber 7200000)))
          (after_read (after_call token_url [] (set_heap [[]; []] rejecting_world)))))
    as (Hstep & _).
  - exists (set_heap [[]; []] rejecting_world). split; reflexivity.
  - split; [vm_compute; split; discriminate|reflexivity].
  - split; reflexivity.
  - reflexivity.
  - reflexivity.
  - reflexivity.
  - reflexivity.
  - rewrite Hstep. split; vm_compute; reflexivity.
Defined.

(** ** Acquisition *)

(** The statements behind the guard would build the credential from the
    response: the token, and the clock plus the lifetime less ten seconds,
    in milliseconds. *)
Lemma acquire_expiry (this_request : API -> string -> jsval -> option Z -> M reply)
    (this : API) (w w1 w2 : World) (fields : list (string * json))
    (token : string) (expires_in : Z) :
  this_request this
    (prefix this +:+ "token?grant_type=client_credential&appid=" +:+ appid this
       +:+ "&secret=" +:+ appsecret this) JUndefined None w
    = (Return (RData (JSobj fields)), w1) ->
  field_get fields "access_token" = Some (JSstr token) ->
  field_get fields "expires_in" = Some (JSnum expires_in) ->
  saveToken this
    (Some (mkAccessToken (Some token) (ENumber (clock w1 + (expires_in - 10) * 1000)))) w1
    = (Return tt, w2) ->
  acquire this_request this w
    = (Return (mkAccessToken (Some token) (ENumber (clock w1 + (expires_in - 10) * 1000))), w2).
Proof.
  intros Hreq Htoken Hexp Hsave.
  unfold acquire, bind. rewrite Hreq. cbn. rewrite Htoken, Hexp.
  unfold new_AccessToken. rewrite Hsave. reflexivity.
Qed.

(** C3, as the specification states it, fails: the remote side would
    grant a token, but [getAccessToken] throws without asking, and nothing
    is saved. *)
Lemma getAccessToken_counterexample :
  answer (remote granting_world 0) = inr (json_response 200 granted_body) /\
  toy_parse granted_body
    = Some (JSobj [("access_token", JSstr "T1"); ("expires_in", JSnum 7200)]) /\
  (getAccessToken toy_ext self_managed granting_world).1
    = Throw (Error (Literal "super can't set access token")) /\
  store (getAccessToken toy_ext self_managed granting_world).2 = None /\
  sent (getAccessToken toy_ext self_managed granting_world).2 = [].
Proof. repeat split; vm_compute; reflexivity. Qed.

(** C3, amended. [getAccessToken] builds, saves and returns no
    credential: whatever the remote side would answer, it throws
    [Error("super can't set access token")] before any other statement
    runs, and the world, with its store, clock and transport record, is as
    before the call. *)
Theorem getAccessToken_guarded (ext : Externals) (this : API) (w : World) :
  getAccessToken ext this w = (Throw (Error (Literal "super can't set access token")), w) /\
  (forall this_request,
     getAccessToken_with this_request this w
       = (Throw (Error (Literal "super can't set access token")), w)).
Proof.
  split.
  - unfold getAccessToken. rewrite getAccessToken_with_guard. reflexivity.
  - intros this_request. rewrite getAccessToken_with_guard. reflexivity.
Qed.

(** ** Objects *)










(** ** The merge loop *)






(** ** Per-call headers and the defaults *)



(** Two calls in a row on [shared_world]: the second brings no options,
    yet it sends the header the first one brought. *)
Example second_call_sends_first_headers :
  sent_headers <$>
    sent ((request toy_ext self_managed menu_url (JRef 2) None >>
           request toy_ext self_managed menu_url JUndefined None) shared_world).2
  = [ [("User-Agent", JStr "co-wechat-api"); ("X-Trace", JStr "abc")];
      [("User-Agent", JStr "co-wechat-api"); ("X-Trace", JStr "abc")] ].
Proof. vm_compute. reflexivity. Qed.

(** * Further properties *)

(** ** Validity over time *)

Lemma valid_at_earlier (t : AccessToken) (now now' : Z) :
  now' <= now -> valid_at now t = true -> valid_at now' t = true.
Proof.
  unfold valid_at. rewrite !andb_true_iff, !before_spec.
  intros Hle [Htoken (e & He & Hlt)]. split; [exact Htoken|].
  exists e. split; [exact He|lia].
Qed.

(** X1. A credential that is valid now was valid at every earlier instant,
    and one that is invalid now stays invalid: validity ends once and is
    never regained. *)
Theorem isValid_monotone (this : AccessToken) (w w' : World) :
  clock w <= clock w' ->
  (isValid this w' = (Return true, w') -> isValid this w = (Return true, w)) /\
  (isValid this w = (Return false, w) -> isValid this w' = (Return false, w')).
Proof.
  intros Hle. rewrite !isValid_valid_at. split.
  - intros [= Hv]. rewrite (valid_at_earlier this _ _ Hle Hv). reflexivity.
  - intros [= Hv]. destruct (valid_at (clock w') this) eqn:Hv'; [|reflexivity].
    rewrite (valid_at_earlier this _ _ Hle Hv') in Hv. discriminate.
Qed.

Lemma isValid_monotone_witness :
  isValid (mkAccessToken (Some "T0") (ENumber 500)) (fresh_world 400 (serve 400 []))
    = (Return true, fresh_world 400 (serve 400 [])).
Proof.
  apply (isValid_monotone (mkAccessToken (Some "T0") (ENumber 500))
           (fresh_world 400 (serve 400 [])) (fresh_world 499 (serve 400 []))).
  - vm_compute. discriminate.
  - reflexivity.
Defined.

(** ** The stored credential *)

(** X2. A stored credential that is valid is what [ensureAccessToken]
    returns, in either mode, and nothing but [getToken] has run: no
    transport call, no save. *)
Theorem ensureAccessToken_returns_stored (this : API) (w w1 : World) (t : AccessToken) :
  getToken this w = (Return (Some t), w1) ->
  isValid t w1 = (Return true, w1) ->
  ensureAccessToken this w = (Return t, w1) /\
  exists token, accessToken t = Some token /\ token <> "".
Proof.
  intros Hget Hvalid. rewrite isValid_valid_at in Hvalid. injection Hvalid as Hvalid.
  split; [apply ensureAccessToken_usable; assumption|].
  unfold valid_at in Hvalid. apply andb_true_iff in Hvalid as [Htoken _].
  apply truthy_string_spec in Htoken. exact Htoken.
Qed.

Lemma ensureAccessToken_returns_stored_witness :
  ensureAccessToken custom_tokens ready_world
    = (Return (mkAccessToken (Some "T0") (ENumber 7190000)), ready_world) /\
  exists token, Some "T0" = Some token /\ token <> "".
Proof.
  apply (ensureAccessToken_returns_stored custom_tokens ready_world ready_world
           (mkAccessToken (Some "T0") (ENumber 7190000))); reflexivity.
Defined.

(** X3. With the hooks the constructor installs, what [saveToken] saved is
    what [getToken] loads; a saved credential that is valid is what
    [ensureAccessToken] then returns, and after [saveToken(null)]
    [ensureAccessToken] fails in the way of its mode. *)
Theorem default_store_round_trip (appid appsecret : string) (mode : bool)
    (t : AccessToken) (w : World) :
  valid_at (clock w) t = true ->
  let this := new_API appid appsecret None None mode in
  (forall token, (saveToken this token >> getToken this) w = (Return token, set_store token w)) /\
  (saveToken this (Some t) >> ensureAccessToken this) w = (Return t, set_store (Some t) w) /\
  (saveToken this None >> ensureAccessToken this) w
    = (Throw (if mode
              then WeChatAPIError (Literal "accessToken Error") (Some (JSnum 40001))
              else Error (Literal "can't set access token")),
       set_store None w).
Proof.
  intros Hvalid this. split; [reflexivity|]. split.
  - unfold bind. cbn [saveToken this new_API default default_saveToken].
    apply ensureAccessToken_usable; [reflexivity|exact Hvalid].
  - unfold bind. cbn [saveToken this new_API default default_saveToken].
    rewrite (ensureAccessToken_unusable _ _ (set_store None w) None); [|reflexivity|exact I].
    unfold no_valid_token. cbn. destruct mode; reflexivity.
Qed.

Lemma default_store_round_trip_witness :
  (saveToken self_managed (Some (mkAccessToken (Some "T1") (ENumber 7190000)))
     >> ensureAccessToken self_managed) (fresh_world 1000 (serve 1000 []))
  = (Return (mkAccessToken (Some "T1") (ENumber 7190000)),
     set_store (Some (mkAccessToken (Some "T1") (ENumber 7190000)))
       (fresh_world 1000 (serve 1000 []))).
Proof.
  refine (proj1 (proj2 (default_store_round_trip "wx1" "s3cret" false
            (mkAccessToken (Some "T1") (ENumber 7190000)) (fresh_world 1000 (serve 1000 [])) _))).
  reflexivity.
Defined.

(** ** More on [API.mixin] *)








(** X7. Two method sets mixed in one after the other give what mixing in
    their concatenation gives. *)
Theorem mixin_sequence {Method : Type}
    (call : Method -> gmap string Method -> string -> (exn + bool) * gmap string Method)
    (obj1 obj2 : list (string * Method)) (proto proto1 : gmap string Method) :
  mixin call obj1 proto = (None, proto1) ->
  mixin call (obj1 ++ obj2) proto = mixin call obj2 proto1.
Proof.
  revert proto. induction obj1 as [|[key m] obj1 IH]; intros proto Hmix.
  - injection Hmix as <-. reflexivity.
  - cbn [mixin app] in *.
    destruct (hasOwnProperty call proto key) as [[e|[|]] p]; try discriminate.
    apply IH, Hmix.
Qed.

Lemma mixin_sequence_witness :
  mixin toy_call ([("uploadMedia", 1%nat)] ++ [("getMedia", 3%nat)]) base_prototype
    = mixin toy_call [("getMedia", 3%nat)] (install [("uploadMedia", 1%nat)] base_prototype).
Proof.
  apply (mixin_sequence toy_call [("uploadMedia", 1%nat)] [("getMedia", 3%nat)] base_prototype).
  reflexivity.
Defined.

(** ** Failures of the transport *)

(** X8. A rejection of [httpx.request], or of [httpx.read] on a response in
    the success range, reaches the caller of [request] unchanged: the call
    was the only one, and neither [saveToken] nor [getAccessToken] ran. *)
Theorem request_transport_failure (ext : Externals)
    (this_getAccessToken : API -> M AccessToken) (this : API) (url : string) (opts : jsval)
    (retry : option Z) (w w1 : World) (opts' : jsval) (options : obj) :
  merge_options opts w = (Return (opts', options), w1) ->
  (forall e,
     answer (remote w1 (length (sent w1))) = inl e ->
     request_with ext this_getAccessToken this url opts retry w
       = (Throw e, after_call url options w1)) /\
  (forall res e,
     answer (remote w1 (length (sent w1))) = inr res ->
     200 <= statusCode res <= 204 ->
     body res = inl e ->
     request_with ext this_getAccessToken this url opts retry w
       = (Throw e, after_read (after_call url options w1))) /\
  store (after_call url options w1) = store w /\
  length (sent (after_call url options w1)) = S (length (sent w)).
Proof.
  intros Hmerge.
  pose proof (merge_options_frame _ _ _ _ Hmerge) as (Hstore & _ & _ & _ & Hsent & _).
  split; [|split; [|split]].
  - intros e Hanswer. unfold request_with.
    destruct (Z.to_nat (default 3 retry)); cbn [request_from]; unfold bind at 1;
      rewrite Hmerge; cbn [fst snd]; unfold bind at 1, httpx_request at 1;
      rewrite Hanswer; reflexivity.
  - intros res e Hanswer Hstatus Hbody. unfold request_with.
    assert (Hrange : (statusCode res <? 200) || (204 <? statusCode res) = false).
    { apply orb_false_iff. rewrite !Z.ltb_ge. lia. }
    destruct (Z.to_nat (default 3 retry)); cbn [request_from]; unfold bind at 1;
      rewrite Hmerge; cbn [fst snd]; unfold bind at 1, httpx_request at 1;
      rewrite Hanswer, Hrange; unfold bind at 1, httpx_read at 1; rewrite Hbody;
      reflexivity.
  - exact Hstore.
  - cbn. rewrite length_app, Hsent. cbn. lia.
Qed.

Lemma request_transport_failure_witness :
  request toy_ext self_managed menu_url JUndefined None refusing_world
    = (Throw (Error (Literal "ECONNREFUSED")),
       after_call menu_url [] (set_heap [[]; []] refusing_world)).
Proof.
  refine (proj1 (request_transport_failure toy_ext (getAccessToken toy_ext) self_managed
            menu_url JUndefined None refusing_world (set_heap [[]; []] refusing_world)
            (JRef 1) [] _) _ _).
  - reflexivity.
  - reflexivity.
Defined.

(** ** Calls that cannot recover *)

Lemma bystander_mono {A} (n m : nat) (c : M A) :
  (n <= m)%nat -> bystander n c -> bystander m c.
Proof.
  intros Hle Hc w. destruct (Hc w) as (? & ? & ? & ?). repeat split; try assumption. lia.
Qed.

Lemma bystander_ret {A} (a : A) : bystander 0 (ret a).
Proof. intros w. cbn. repeat split; try lia. discriminate. Qed.

Lemma bystander_throw {A} (e : exn) : bystander 0 (throw (A := A) e).
Proof. intros w. cbn. repeat split; try lia. discriminate. Qed.

Lemma bystander_bind {A B} (n m : nat) (c : M A) (k : A -> M B) :
  bystander n c -> (forall a, bystander m (k a)) -> bystander (n + m) (bind c k).
Proof.
  intros Hc Hk w. unfold bind. destruct (Hc w) as (Hs & Hd & Hn & Hf).
  destruct (c w) as [[a|e|] w']; cbn in *.
  - destruct (Hk a w') as (Hs' & Hd' & Hn' & Hf').
    repeat split; try congruence. lia.
  - repeat split; try assumption; try lia. discriminate.
  - contradiction.
Qed.

Lemma bystander_merge_options (opts : jsval) : bystander 0 (merge_options opts).
Proof.
  intros w. destruct (touches_merge_options opts w) as (Hs & Hd & _ & _ & Hsent & _).
  repeat split; try assumption; [rewrite Hsent; lia|apply settles_merge_options].
Qed.

Lemma bystander_httpx_request (url : string) (options : obj) :
  bystander 1 (httpx_request url options).
Proof.
  intros w. unfold httpx_request.
  destruct (answer _); cbn; rewrite length_app; cbn; repeat split; try lia; discriminate.
Qed.

Lemma bystander_httpx_read (res : Response) : bystander 0 (httpx_read res).
Proof.
  intros w. unfold httpx_read.
  destruct (body res); cbn; repeat split; try lia; discriminate.
Qed.

(** X9. With [tokenFromCustom] set, or with no budget left, [request] never
    runs [saveToken] or [getAccessToken], whatever the remote side
    answers: the stored credential is as before, the field
    [this.defaults] holds the value or the reference it held, at most one
    transport call is made, and the call returns or throws. The object
    that [this.defaults] refers to is not covered: the merge of the
    options may write per-call headers into its headers object. *)
Theorem request_without_recovery (ext : Externals)
    (this_getAccessToken : API -> M AccessToken) (this : API) (url : string) (opts : jsval)
    (retry : option Z) (w : World) :
  tokenFromCustom this = true \/ default 3 retry <= 0 ->
  store (request_with ext this_getAccessToken this url opts retry w).2 = store w /\
  defaults (request_with ext this_getAccessToken this url opts retry w).2 = defaults w /\
  (length (sent (request_with ext this_getAccessToken this url opts retry w).2)
     <= S (length (sent w)))%nat /\
  (request_with ext this_getAccessToken this url opts retry w).1 <> OutOfFuel.
Proof.
  intros Hmode.
  assert (Hcond : forall c,
            rejection_code c && (0 <? default 3 retry) && negb (tokenFromCustom this) = false).
  { intros c. destruct Hmode as [-> | Hbudget].
    - cbn. apply andb_false_r.
    - replace (0 <? default 3 retry) with false by (symmetry; apply Z.ltb_ge; exact Hbudget).
      rewrite andb_false_r. reflexivity. }
  assert (H : bystander (0 + (1 + (0 + 0)))
            (request_with ext this_getAccessToken this url opts retry)).
  { unfold request_with. destruct (Z.to_nat (default 3 retry)); cbn [request_from].
    all: apply bystander_bind; [apply bystander_merge_options|intros merged].
    all: apply bystander_bind; [apply bystander_httpx_request|intros res].
    all: destruct (_ || _); [eapply bystander_mono; [|apply bystander_throw]; lia|].
    all: apply bystander_bind; [apply bystander_httpx_read|intros buffer].
    all: destruct (_ || _); [|apply bystander_ret].
    all: destruct (JSONbig_parse ext _) as [data|];
      [|destruct (includes _ _); [apply bystander_ret|apply bystander_throw]].
    all: destruct (errcode_of data) as [c|]; [|apply bystander_ret].
    all: rewrite Hcond; apply bystander_throw. }
  destruct (H w) as (Hs & Hd & Hn & Hf).
  repeat split; try assumption. lia.
Qed.

Lemma request_without_recovery_witness :
  store (request toy_ext custom_tokens token_url JUndefined None rejecting_world).2
    = store rejecting_world.
Proof.
  refine (proj1 (request_without_recovery toy_ext (getAccessToken toy_ext) custom_tokens
            token_url JUndefined None rejecting_world _)).
  left. reflexivity.
Defined.

(** The field is kept, the object it leads to is not: with
    [tokenFromCustom] set, a call with headers of its own on
    [shared_world] leaves [this.defaults] the reference it was and writes
    into the headers object behind it. *)
Example request_without_recovery_writes_headers :
  defaults (request toy_ext custom_tokens menu_url (JRef 2) None shared_world).2
    = defaults shared_world /\
  heap shared_world !! 1%nat = Some [("User-Agent", JStr "co-wechat-api")] /\
  heap (request toy_ext custom_tokens menu_url (JRef 2) None shared_world).2 !! 1%nat
    = Some [("User-Agent", JStr "co-wechat-api"); ("X-Trace", JStr "abc")].
Proof. vm_compute. repeat split. Qed.

(** ** What a rejection costs the class *)

(** X10. In a client with the default store and without [tokenFromCustom], a
    40001 or 42001 answer under a positive budget ends [request] with the
    guard's error and the stored credential gone; from then on
    [ensureAccessToken] fails, whatever was stored before. *)
Theorem rejection_drops_credential (ext : Externals) (appid appsecret : string)
    (url : string) (opts : jsval) (retry : option Z) (w : World) (opts' : jsval)
    (options : obj) (res : Response) (w2 : World) (buffer : Buffer) (data c : json) :
  answered url opts w opts' options res w2 ->
  readable res buffer ->
  decodes ext res buffer data ->
  errcode_of data = Some c ->
  rejection_code c = true ->
  0 < default 3 retry ->
  let this := new_API appid appsecret None None false in
  let w' := set_store None (after_read w2) in
  request ext this url opts retry w = (Throw guard_error, w') /\
  ensureAccessToken this w' = (Throw (Error (Literal "can't set access token")), w').
Proof.
  intros Hans Hread Hdec Hcode Hrej Hbudget this w'. split.
  - rewrite (request_recover_guard ext this url opts retry w opts' options res w2 buffer
               data c Hans Hread Hdec Hcode).
    + reflexivity.
    + rewrite Hrej. cbn. rewrite andb_true_r. apply Z.ltb_lt, Hbudget.
  - apply (ensureAccessToken_unusable this w' w' None); [reflexivity|exact I].
Qed.

Lemma rejection_drops_credential_witness :
  request toy_ext self_managed token_url JUndefined None rejecting_world
    = (Throw guard_error,
       set_store None (after_read (after_call token_url [] (set_heap [[]; []] rejecting_world))))
  /\ ensureAccessToken self_managed
       (set_store None (after_read (after_call token_url [] (set_heap [[]; []] rejecting_world))))
     = (Throw (Error (Literal "can't set access token")),
        set_store None (after_read (after_call token_url [] (set_heap [[]; []] rejecting_world)))).
Proof.
  apply (rejection_drops_credential toy_ext "wx1" "s3cret" token_url JUndefined None
           rejecting_world (JRef 1) [] (json_response 200 rejected_body)
           (after_call token_url [] (set_heap [[]; []] rejecting_world))
           (String.list_byte_of_string rejected_body)
           (JSobj [("errcode", JSnum 40001); ("errmsg", JSstr "invalid credential")])
           (JSnum 40001)).
  - exists (set_heap [[]; []] rejecting_world). split; reflexivity.
  - split; [vm_compute; split; discriminate|reflexivity].
  - split; reflexivity.
  - reflexivity.
  - reflexivity.
  - reflexivity.
Defined.

(** ** Bodies that are not errors *)

(** X11. A decoded body is an error only if its [errcode] is truthy: with
    [errcode] absent, 0, [null], [false] or empty, and also when the body
    is not an object at all, [request] returns the decoded value. *)
Theorem request_falsy_errcode (ext : Externals) (this_getAccessToken : API -> M AccessToken)
    (this : API) (url : string) (opts : jsval) (retry : option Z) (w : World)
    (opts' : jsval) (options : obj) (res : Response) (w2 : World) (buffer : Buffer)
    (data : json) :
  answered url opts w opts' options res w2 ->
  readable res buffer ->
  decodes ext res buffer data ->
  (forall c, json_get data "errcode" = Some c -> json_truthy c = false) ->
  request_with ext this_getAccessToken this url opts retry w
    = (Return (RData data), after_read w2).
Proof.
  intros (w1 & Hmerge & Hsend) [Hstatus Hbody] [Htype Hparse] Hfalsy.
  apply (attempt_data ext this_getAccessToken this url opts _ w w1 w2 opts' options res
           Hmerge Hsend buffer Hstatus Hbody data Htype Hparse).
  unfold errcode_of. destruct (json_truthy data); [|reflexivity].
  destruct (json_get data "errcode") as [c|] eqn:Hc; [|reflexivity].
  rewrite (Hfalsy c eq_refl). reflexivity.
Qed.

Lemma request_falsy_errcode_witness :
  exists w',
    request toy_ext self_managed menu_url JUndefined None ready_world
      = (Return (RData (JSobj [("errcode", JSnum 0); ("errmsg", JSstr "ok")])), w').
Proof.
  eexists.
  eapply (request_falsy_errcode toy_ext (getAccessToken toy_ext) self_managed menu_url
            JUndefined None ready_world (JRef 1) [] (json_response 200 done_body) _
            (String.list_byte_of_string done_body)).
  - eexists. split; vm_compute; reflexivity.
  - split; [vm_compute; split; discriminate|reflexivity].
  - split; reflexivity.
  - intros c [= <-]. reflexivity.
Defined.

(** ** A retry that succeeds *)

(** X12. Where [getAccessToken] is overridden and returns a token, a rejected
    call whose retry is answered without an error code returns the data of
    the second answer. *)
Theorem request_refresh_then_data (ext : Externals)
    (this_getAccessToken : API -> M AccessToken) (this : API) (url : string) (opts : jsval)
    (retry : option Z) (w : World) (opts' : jsval) (options : obj) (res : Response)
    (w2 : World) (buffer : Buffer) (data c : json) (w4 w5 : World) (token : AccessToken)
    (opts'' : jsval) (options' : obj) (res' : Response) (w7 : World) (buffer' : Buffer)
    (data' : json) :
  answered url opts w opts' options res w2 ->
  readable res buffer ->
  decodes ext res buffer data ->
  errcode_of data = Some c ->
  rejection_code c && (0 <? default 3 retry) && negb (tokenFromCustom this) = true ->
  saveToken this None (after_read w2) = (Return tt, w4) ->
  this_getAccessToken this w4 = (Return token, w5) ->
  answered (liburl_format ext (rewrite_token (liburl_parse ext url) token)) opts' w5
           opts'' options' res' w7 ->
  readable res' buffer' ->
  decodes ext res' buffer' data' ->
  errcode_of data' = None ->
  request_with ext this_getAccessToken this url opts retry w
    = (Return (RData data'), after_read w7).
Proof.
  intros Hans Hread Hdec Hcode Hcond Hsave Hget (w6 & Hmerge' & Hsend')
         [Hstatus' Hbody'] [Htype' Hparse'] Hcode'.
  rewrite (request_with_recover ext this_getAccessToken this url opts retry w opts' options
             res w2 buffer data c Hans Hread Hdec Hcode Hcond).
  unfold bind at 1. rewrite Hsave. unfold bind at 1. rewrite Hget.
  unfold request_with.
  exact (attempt_data ext this_getAccessToken this _ opts' _ w5 w6 w7 opts'' options' res'
           Hmerge' Hsend' buffer' Hstatus' Hbody' data' Htype' Hparse' _ Hcode').
Qed.

Lemma request_refresh_then_data_witness :
  exists w',
    request_with toy_ext renewing self_managed token_url JUndefined None rejecting_world
      = (Return (RData (JSobj [("errcode", JSnum 0); ("errmsg", JSstr "ok")])), w').
Proof.
  eexists.
  eapply (request_refresh_then_data toy_ext renewing self_managed token_url JUndefined None
            rejecting_world (JRef 1) [] (json_response 200 rejected_body) _
            (String.list_byte_of_string rejected_body)
            (JSobj [("errcode", JSnum 40001); ("errmsg", JSstr "invalid credential")])
            (JSnum 40001) _ _ (new_AccessToken (Some "T2") (ENumber 7200000))
            (JRef 1) [] (json_response 200 done_body) _
            (String.list_byte_of_string done_body)).
  - eexists. split; vm_compute; reflexivity.
  - split; [vm_compute; split; discriminate|reflexivity].
  - split; reflexivity.
  - reflexivity.
  - reflexivity.
  - reflexivity.
  - reflexivity.
  - eexists. split; vm_compute; reflexivity.
  - split; [vm_compute; split; discriminate|reflexivity].
  - split; reflexivity.
  - reflexivity.
Defined.

(** ** [getAccessTokenFromWeixin] *)

(** X13. When the token endpoint answers without an error code,
    [getAccessTokenFromWeixin] returns the decoded answer and saves
    nothing: one call went out, to the url built from the prefix, the
    appid and the secret, and the stored credential is as before. *)
Theorem getAccessTokenFromWeixin_only_fetches (ext : Externals) (this : API) (w : World)
    (opts' : jsval) (options : obj) (res : Response) (w2 : World) (buffer : Buffer)
    (data : json) :
  let url := prefix this +:+ "token?grant_type=client_credential&appid=" +:+ appid this
             +:+ "&secret=" +:+ appsecret this in
  answered url JUndefined w opts' options res w2 ->
  readable res buffer ->
  decodes ext res buffer data ->
  errcode_of data = None ->
  getAccessTokenFromWeixin ext this w = (Return (RData data), after_read w2) /\
  store (after_read w2) = store w /\
  sent_url <$> sent (after_read w2) = (sent_url <$> sent w) ++ [url].
Proof.
  intros url Hans Hread Hdec Hcode.
  pose proof (answered_frame _ _ _ _ _ _ _ Hans) as (Hstore & _ & _ & _ & w1 & Hframe & Hw2).
  destruct Hans as (w1' & Hmerge & Hsend). destruct Hread as [Hstatus Hbody].
  destruct Hdec as [Htype Hparse].
  split; [|split].
  - unfold getAccessTokenFromWeixin, bind. fold url. unfold request, request_with.
    rewrite (attempt_data ext (getAccessToken ext) this url JUndefined _ w w1' w2 opts'
               options res Hmerge Hsend buffer Hstatus Hbody data Htype Hparse _ Hcode).
    reflexivity.
  - exact Hstore.
  - subst w2. cbn. destruct Hframe as (_ & _ & _ & _ & -> & _).
    rewrite fmap_app. reflexivity.
Qed.

Lemma getAccessTokenFromWeixin_only_fetches_witness :
  exists w',
    getAccessTokenFromWeixin toy_ext self_managed granting_world
      = (Return (RData (JSobj [("access_token", JSstr "T1"); ("expires_in", JSnum 7200)])), w')
    /\ store w' = None.
Proof.
  eexists.
  refine ((fun H => conj (proj1 H) (proj1 (proj2 H)))
            (getAccessTokenFromWeixin_only_fetches toy_ext self_managed granting_world (JRef 1) []
               (json_response 200 granted_body) _ (String.list_byte_of_string granted_body)
               (JSobj [("access_token", JSstr "T1"); ("expires_in", JSnum 7200)]) _ _ _ _)).
  - eexists. split; vm_compute; reflexivity.
  - split; [vm_compute; split; discriminate|reflexivity].
  - split; reflexivity.
  - reflexivity.
Defined.

(** ** [getPhoneNumberForMiniProgram] *)

(** X14. Without a valid stored credential [getPhoneNumberForMiniProgram]
    fails as [ensureAccessToken] does, before the options are built and
    before any transport call. *)
Theorem getPhoneNumber_needs_credential (ext : Externals) (postJSON : json -> M jsval)
    (this : API) (code : json) (w w1 : World) (token : option AccessToken) :
  getToken this w = (Return token, w1) ->
  unusable (clock w1) token ->
  getPhoneNumberForMiniProgram ext postJSON this code w
    = (Throw (if tokenFromCustom this
              then WeChatAPIError (Literal "accessToken Error") (Some (JSnum 40001))
              else Error (Literal "can't set access token")), w1).
Proof.
  intros Hget Hbad. unfold getPhoneNumberForMiniProgram, bind at 1.
  rewrite (ensureAccessToken_unusable this w w1 token Hget Hbad).
  unfold no_valid_token. destruct (tokenFromCustom this); reflexivity.
Qed.

Lemma getPhoneNumber_needs_credential_witness :
  getPhoneNumberForMiniProgram toy_ext toy_postJSON custom_tokens (JSstr "code-1") stale_world
    = (Throw (WeChatAPIError (Literal "accessToken Error") (Some (JSnum 40001))), stale_world).
Proof.
  apply (getPhoneNumber_needs_credential toy_ext toy_postJSON custom_tokens (JSstr "code-1")
           stale_world stale_world (Some (mkAccessToken (Some "T0") (ENumber 500)))).
  - reflexivity.
  - reflexivity.
Defined.

(** X15. With a valid stored credential the call is [request] on the
    mini-program url that carries the stored token, with the options
    [postJSON] built for [{code}] and the default budget. *)
Theorem getPhoneNumber_uses_stored_token (ext : Externals) (postJSON : json -> M jsval)
    (this : API) (code : json) (w w1 w2 : World) (t : AccessToken) (opts : jsval) :
  getToken this w = (Return (Some t), w1) ->
  isValid t w1 = (Return true, w1) ->
  postJSON (JSobj [("code", code)]) w1 = (Return opts, w2) ->
  exists token,
    accessToken t = Some token /\ token <> "" /\
    getPhoneNumberForMiniProgram ext postJSON this code w
      = request ext this
          ("https://api.weixin.qq.com/wxa/business/getuserphonenumber?access_token=" +:+ token)
          opts None w2.
Proof.
  intros Hget Hvalid Hpost.
  rewrite isValid_valid_at in Hvalid. injection Hvalid as Hvalid.
  assert (Htoken : exists token, accessToken t = Some token /\ token <> "").
  { unfold valid_at in Hvalid. apply andb_true_iff in Hvalid as [Htoken _].
    apply truthy_string_spec, Htoken. }
  destruct Htoken as (token & Htoken & Hne). exists token.
  split; [exact Htoken|]. split; [exact Hne|].
  unfold getPhoneNumberForMiniProgram, bind at 1.
  rewrite (ensureAccessToken_usable this w w1 t Hget Hvalid).
  unfold bind at 1. rewrite Hpost, Htoken. reflexivity.
Qed.

Lemma getPhoneNumber_uses_stored_token_witness :
  sent_url <$>
    sent (getPhoneNumberForMiniProgram toy_ext toy_postJSON self_managed (JSstr "code-1")
            ready_world).2
  = ["https://api.weixin.qq.com/wxa/business/getuserphonenumber?access_token=T0"].
Proof.
  destruct (getPhoneNumber_uses_stored_token toy_ext toy_postJSON self_managed (JSstr "code-1")
              ready_world ready_world
              (set_heap [[]; [("Content-Type", JStr "application/json")];
                         [("method", JStr "POST"); ("headers", JRef 1)]] ready_world)
              (mkAccessToken (Some "T0") (ENumber 7190000)) (JRef 2))
    as (token & Htoken & _ & Hcall).
  - reflexivity.
  - reflexivity.
  - reflexivity.
  - injection Htoken as <-. rewrite Hcall. vm_compute. reflexivity.
Defined.

(** ** Precedence in the option merge *)




(** ** Per-call headers without default headers *)




(** ** [checkWeixinServerGetSignature] *)

Lemma string_le_iff (a b : string) :
  string_le a b <-> a = b \/ OrderedTypeEx.String_as_OT.lt a b.
Proof.
  unfold string_le, String.leb.
  pose proof (OrderedTypeEx.String_as_OT.cmp_eq a b) as Heq.
  pose proof (OrderedTypeEx.String_as_OT.cmp_lt a b) as Hlt.
  unfold OrderedTypeEx.String_as_OT.cmp in *.
  destruct (String.compare a b).
  - split; [intros _; left; apply Heq; reflexivity|reflexivity].
  - split; [intros _; right; apply Hlt; reflexivity|reflexivity].
  - split; [discriminate|]. intros [H|H]; [apply Heq in H|apply Hlt in H]; discriminate.
Qed.

#[local] Instance string_le_total : Total string_le.
Proof. intros a b. apply String.leb_total. Qed.

#[local] Instance string_le_antisym : AntiSymm (=) string_le.
Proof. intros a b. apply String.leb_antisym. Qed.

#[local] Instance string_le_trans : Transitive string_le.
Proof.
  intros a b c. rewrite !string_le_iff.
  intros [->|Hab] [->|Hbc]; auto.
  right. eapply OrderedTypeEx.String_as_OT.lt_trans; eassumption.
Qed.

Lemma js_sort_permutation (l l' : list string) : l ≡ₚ l' -> js_sort l = js_sort l'.
Proof.
  intros Hperm. unfold js_sort.
  apply (Sorted_unique string_le); try apply Sorted_merge_sort; try apply _.
  rewrite !merge_sort_Permutation. exact Hperm.
Qed.

Lemma js_sort_sorted (l : list string) : Sorted string_le l -> js_sort l = l.
Proof.
  intros Hsorted. unfold js_sort.
  apply (Sorted_unique string_le); try apply _; [apply Sorted_merge_sort; apply _|exact Hsorted|].
  apply merge_sort_Permutation.
Qed.

Lemma append_empty_r (s : string) : String.append s "" = s.
Proof.
  induction s as [|c s IH]; [reflexivity|].
  change (String c (String.append s "") = String c s). rewrite IH. reflexivity.
Qed.

(** X18. The answer of [checkWeixinServerGetSignature] does not depend on the
    order in which token, timestamp and nonce are given. *)
Theorem signature_order_irrelevant (sha1_hex : string -> string)
    (token timestamp nonce token' timestamp' nonce' signature : string) :
  [token; timestamp; nonce] ≡ₚ [token'; timestamp'; nonce'] ->
  checkWeixinServerGetSignature sha1_hex token timestamp nonce signature
    = checkWeixinServerGetSignature sha1_hex token' timestamp' nonce' signature.
Proof.
  intros Hperm. unfold checkWeixinServerGetSignature.
  rewrite (js_sort_permutation _ _ Hperm). reflexivity.
Qed.

Lemma signature_order_irrelevant_witness :
  checkWeixinServerGetSignature toy_digest "tok" "123" "abc" "123abctok"
    = checkWeixinServerGetSignature toy_digest "abc" "tok" "123" "123abctok".
Proof.
  apply (signature_order_irrelevant toy_digest "tok" "123" "abc" "abc" "tok" "123").
  change ([ "tok"; "123"; "abc" ] ≡ₚ [ "abc" ] ++ [ "tok"; "123" ]).
  rewrite (Permutation_app_comm [ "abc" ] [ "tok"; "123" ]). reflexivity.
Defined.

(** X19. Given in ascending order, the three texts are digested as their plain
    concatenation, and the check succeeds exactly when the signature is
    that digest. *)
Theorem signature_of_sorted (sha1_hex : string -> string) (a b c signature : string) :
  String.leb a b = true -> String.leb b c = true ->
  (checkWeixinServerGetSignature sha1_hex a b c signature = true <->
     signature = sha1_hex (a +:+ b +:+ c)).
Proof.
  intros Hab Hbc. unfold checkWeixinServerGetSignature.
  rewrite js_sort_sorted.
  - cbn [join_empty foldr]. rewrite append_empty_r, String.eqb_eq.
    split; intros H; symmetry; exact H.
  - repeat constructor; assumption.
Qed.

Lemma signature_of_sorted_witness :
  checkWeixinServerGetSignature toy_digest "123" "abc" "tok" "123abctok" = true <->
  "123abctok" = toy_digest ("123" +:+ "abc" +:+ "tok").
Proof.
  apply (signature_of_sorted toy_digest "123" "abc" "tok" "123abctok"); reflexivity.
Defined.
